(** * Residual Symmetric U-Net (efficient_3dunet.py): construction and data flow

    A shallow embedding of [src/efficient_3dunet.py].  Python values that the
    module manipulates are modelled as follows.

    - Python integers are [Z]; tuples and lists of integers are [list Z].
    - A kernel size, stride or scale factor, which the source accepts either
      as an int or as a tuple, is a [pyval].
    - An exception is a value of [exn]; a computation that may raise returns
      a [result].
    - The module-level variable [MODE], written by [RSUNet.__init__] and read
      by [Conv.__init__], is threaded explicitly through the constructors
      (monad [M]).
    - Sub-modules registered on an [nn.Module] live in a finite map from
      attribute names to modules, as in [nn.Module._modules].
    - The tensor library (torch) is an interface, [Engine]; the instance
      [shape_engine] interprets a tensor by its shape. *)

From Stdlib Require Import ZArith List Lia QArith.
From stdpp Require Import base strings pretty gmap list fin_maps.

Local Open Scope string_scope.
Local Open Scope Z_scope.

(** ** Python values and exceptions *)

(** An int-or-sequence argument ([kernel_size], [stride], [up], ...). *)
Inductive pyval : Type :=
  | PInt (z : Z)
  | PSeq (l : list Z).

(** The exceptions the module or the tensor library can raise.  An
    [AssertionError] carries the text of the failed [assert]. *)
Inductive exn : Type :=
  | AssertionError (what : string)
  | IndexError
  | AttributeError (name : string)
  | TypeError
  | ValueError
  | RuntimeError (what : string).

Inductive result (A : Type) : Type :=
  | Ok (a : A)
  | Err (e : exn).
Arguments Ok {A} a.
Arguments Err {A} e.

Definition bind {A B : Type} (r : result A) (k : A -> result B) : result B :=
  match r with
  | Ok a => k a
  | Err e => Err e
  end.

Notation "'let*' x := e 'in' k" := (bind e (fun x => k))
  (at level 10, x name, e at level 200, k at level 200, only parsing).
Notation "'let*' ' p := e 'in' k" := (bind e (fun p => k))
  (at level 10, p pattern, e at level 200, k at level 200, only parsing).

Definition map_result {A B : Type} (f : A -> B) (r : result A) : result B :=
  let* a := r in Ok (f a).

Definition is_ok {A : Type} (r : result A) : bool :=
  match r with
  | Ok _ => true
  | Err _ => false
  end.

(** [assert c] *)
Definition assert (c : bool) (what : string) : result unit :=
  if c then Ok tt else Err (AssertionError what).

(** [for x in l: acc = f(acc, x)], stopping at the first exception. *)
Fixpoint foldM {A S : Type} (f : S -> A -> result S) (l : list A) (s : S)
  : result S :=
  match l with
  | [] => Ok s
  | a :: l' => let* s' := f s a in foldM f l' s'
  end.

(** [len(t)] *)
Definition py_len {A : Type} (l : list A) : Z := Z.of_nat (length l).

(** [t[i]] on a tuple or a list: a negative index counts from the end. *)
Definition py_index {A : Type} (l : list A) (i : Z) : result A :=
  let j := if i <? 0 then i + py_len l else i in
  if (0 <=? j) && (j <? py_len l) then
    match l !! Z.to_nat j with
    | Some a => Ok a
    | None => Err IndexError
    end
  else Err IndexError.

(** [range(n)] *)
Definition range (n : Z) : list Z := map Z.of_nat (seq 0 (Z.to_nat n)).

(** [reversed(range(n))] *)
Definition reversed_range (n : Z) : list Z := rev (range n).

(** [x == n] for an int literal [n]: a tuple never equals an int. *)
Definition py_eq_int (x : pyval) (n : Z) : bool :=
  match x with
  | PInt z => z =? n
  | PSeq _ => false
  end.

(** ** Module-level constants (lines 10-21) *)

Definition nfeatures : list Z := [24; 64; 192; 192; 192].
Definition sizes : list pyval :=
  repeat (PSeq [3; 3; 3]) (length nfeatures).

Definition embed_ks : pyval := PSeq [1; 5; 5].
Definition embed_nin : Z := 24.
Definition embed_nout : Z := embed_nin.

Definition init_stride : pyval := PSeq [1; 2; 2].

(** ** ShapeUtil: [_ntuple], [_triple], [pad_size] *)

(** [_ntuple(n)(x)]: an iterable is returned as it is, whatever its
    length; anything else is repeated [n] times.  ([collections.Iterable]
    exists up to Python 3.9, the interpreters the module runs on.) *)
Definition _ntuple (n : nat) (x : pyval) : pyval :=
  match x with
  | PSeq l => PSeq l
  | PInt z => PSeq (repeat z n)
  end.

Definition _triple : pyval -> pyval := _ntuple 3.

(** The elements of an iterable; iterating over an int raises [TypeError]. *)
Definition py_iter (x : pyval) : result (list Z) :=
  match x with
  | PSeq l => Ok l
  | PInt _ => Err TypeError
  end.

Definition pad_size (kernel_size : pyval) (mode : string) : result (list Z) :=
  let* _ := assert (bool_decide (mode ∈ ["valid"; "same"; "full"]))
              "mode in ['valid', 'same', 'full']" in
  let* ks := py_iter (_triple kernel_size) in
  if String.eqb mode "valid" then Ok [0; 0; 0]
  else if String.eqb mode "same" then
    let* _ := assert (forallb (fun x => negb (x mod 2 =? 0)) ks)
                "all([x % 2 for x in ks])" in
    Ok (map (fun x => x / 2) ks)
  else (* mode == 'full' *)
    Ok (map (fun x => x - 1) ks).

(** ** The global [MODE] and the constructor monad *)

Record globals : Type := { MODE : string }.

(** Line 19: [MODE = 'tvm']. *)
Definition initial_globals : globals := {| MODE := "tvm" |}.

(** A constructor reads and writes the module globals and may raise; the
    globals written before an exception stay written. *)
Definition M (A : Type) : Type := globals -> result A * globals.

Definition retM {A : Type} (a : A) : M A := fun g => (Ok a, g).

Definition bindM {A B : Type} (m : M A) (k : A -> M B) : M B :=
  fun g =>
    match m g with
    | (Ok a, g') => k a g'
    | (Err e, g') => (Err e, g')
    end.

Definition liftM {A : Type} (r : result A) : M A := fun g => (r, g).

Definition get_MODE : M string := fun g => (Ok (MODE g), g).
Definition set_MODE (m : string) : M unit := fun _ => (Ok tt, {| MODE := m |}).

Notation "'let!' x := e 'in' k" := (bindM e (fun x => k))
  (at level 10, x name, e at level 200, k at level 200, only parsing).
Notation "'let!' ' p := e 'in' k" := (bindM e (fun p => k))
  (at level 10, p pattern, e at level 200, k at level 200, only parsing).

Fixpoint foldMM {A S : Type} (f : S -> A -> M S) (l : list A) (s : S) : M S :=
  match l with
  | [] => retM s
  | a :: l' => let! s' := f s a in foldMM f l' s'
  end.

(** *** Specifications of computations *)

(** What holds of the value and the globals when [m] returns. *)
Definition okM {A : Type} (m : M A) (g : globals)
    (Q : A -> globals -> Prop) : Prop :=
  forall a g', m g = (Ok a, g') -> Q a g'.

(** [Q] holds when [r] returns, [P] of the exception when it raises. *)
Definition outcome {A : Type} (r : result A) (Q : A -> Prop)
    (P : exn -> Prop) : Prop :=
  match r with
  | Ok a => Q a
  | Err e => P e
  end.

(** [m] leaves the globals as they are, whether it returns or raises. *)
Definition keeps_globals {A : Type} (m : M A) : Prop :=
  forall g, snd (m g) = g.

(** ** The tensor library *)

(** Which class [Conv.__init__] instantiates: [fast3d.module.Conv3d] when
    [MODE == 'tvm'], [torch.nn.Conv3d] otherwise. *)
Inductive backend : Type :=
  | Fast3d
  | Torch.

(** How a parameter was last initialised.  The values themselves (random
    floats) are not modelled. *)
Inductive initializer : Type :=
  | DefaultInit
  | KaimingNormal
  | Constant (c : Z).

(** An [nn.Conv3d] (or [fast3d] [Conv3d]) layer: its constructor arguments
    and its parameters; [c_bias] is [None] when the layer was built with
    [bias=False] (or, for the external [fast3d] layer, with [bias=None],
    taken to mean the same). *)
Record conv3d_layer : Type := {
  c_backend : backend;
  c_in : Z;
  c_out : Z;
  c_kernel : pyval;
  c_stride : pyval;
  c_padding : pyval;
  c_weight : initializer;
  c_bias : option initializer
}.

(** An [nn.ConvTranspose3d] layer. *)
Record convT3d_layer : Type := {
  ct_in : Z;
  ct_out : Z;
  ct_kernel : pyval;
  ct_stride : pyval;
  ct_padding : pyval;
  ct_out_pad : pyval;
  ct_weight : initializer;
  ct_bias : option initializer
}.

(** An [nn.BatchNorm3d] layer ([eps] is the constant [1e-05]). *)
Record batchnorm3d_layer : Type := {
  bn_features : Z;
  bn_momentum : Q;
  bn_track : bool
}.

(** What the module asks of torch at call time.  Every operation may raise
    (shape mismatch, resource exhaustion).  Constructing a layer only
    stores its arguments: what torch checks of them, it checks here when the
    layer is called. *)
Class Engine : Type := {
  tensor : Type;
  conv3d : conv3d_layer -> tensor -> result tensor;
  conv_transpose3d : convT3d_layer -> tensor -> result tensor;
  batch_norm3d : batchnorm3d_layer -> tensor -> result tensor;
  max_pool3d : pyval -> tensor -> result tensor;
  (** [nn.Upsample(scale_factor, mode)] *)
  upsample : pyval -> string -> tensor -> result tensor;
  (** [x + y] *)
  tensor_add : tensor -> tensor -> result tensor
}.

(** [nn.init.kaiming_normal_(w)] *)
Definition kaiming_normal_ (w : initializer) : initializer := KaimingNormal.

(** [nn.init.constant_(p, val)] runs [p.fill_(val)]: on [None] this raises
    [AttributeError]. *)
Definition constant_ (p : option initializer) (val : Z)
  : result (option initializer) :=
  match p with
  | Some _ => Ok (Some (Constant val))
  | None => Err (AttributeError "fill_")
  end.

Section Network.

Context {E : Engine}.

(** ** NormGate: [batchnorm] (lines 50-55) *)

Inductive norm : Type :=
  | BatchNorm3d (l : batchnorm3d_layer)
  | IdentityNorm.

Definition batchnorm (out_channels : Z) (use_bn : bool) (momentum : Q)
    (track : bool) : norm :=
  if use_bn then
    BatchNorm3d {| bn_features := out_channels; bn_momentum := momentum;
                   bn_track := track |}
  else IdentityNorm.

Definition norm_call (n : norm) (x : tensor) : result tensor :=
  match n with
  | BatchNorm3d l => batch_norm3d l x
  | IdentityNorm => Ok x
  end.

(** Line 58. *)
Definition residual_sum (x skip : tensor) (residual : bool) : result tensor :=
  if residual then tensor_add x skip else Ok x.

(** ** ConvBlock: [Conv] and [ConvT] *)

Record Conv : Type := { conv_conv : conv3d_layer }.

Definition Conv_init (in_channels out_channels : Z)
    (kernel_size stride padding : pyval) (bias : bool) : M Conv :=
  let! mode := get_MODE in
  let conv :=
    if String.eqb mode "tvm" then
      {| c_backend := Fast3d; c_in := in_channels; c_out := out_channels;
         c_kernel := kernel_size; c_stride := stride; c_padding := padding;
         c_weight := DefaultInit; c_bias := None |}
    else
      {| c_backend := Torch; c_in := in_channels; c_out := out_channels;
         c_kernel := kernel_size; c_stride := stride; c_padding := padding;
         c_weight := DefaultInit; c_bias := None |} in
  let w := kaiming_normal_ (c_weight conv) in
  let! b := liftM (if bias then constant_ (c_bias conv) 0
                   else Ok (c_bias conv)) in
  retM {| conv_conv :=
            {| c_backend := c_backend conv; c_in := c_in conv;
               c_out := c_out conv; c_kernel := c_kernel conv;
               c_stride := c_stride conv; c_padding := c_padding conv;
               c_weight := w; c_bias := b |} |}.

Definition Conv_forward (self : Conv) (x : tensor) : result tensor :=
  conv3d (conv_conv self) x.

Record ConvT : Type := { convt_conv : convT3d_layer }.

Definition ConvT_init (in_channels out_channels : Z)
    (kernel_size stride padding out_pad : pyval) (bias : bool) : M ConvT :=
  let conv :=
    {| ct_in := in_channels; ct_out := out_channels;
       ct_kernel := kernel_size; ct_stride := stride;
       ct_padding := padding; ct_out_pad := out_pad;
       ct_weight := DefaultInit;
       ct_bias := if bias then Some DefaultInit else None |} in
  let w := kaiming_normal_ (ct_weight conv) in
  let! b := liftM (if bias then constant_ (ct_bias conv) 0
                   else Ok (ct_bias conv)) in
  retM {| convt_conv :=
            {| ct_in := ct_in conv; ct_out := ct_out conv;
               ct_kernel := ct_kernel conv; ct_stride := ct_stride conv;
               ct_padding := ct_padding conv; ct_out_pad := ct_out_pad conv;
               ct_weight := w; ct_bias := b |} |}.

Definition ConvT_forward (self : ConvT) (x : tensor) : result tensor :=
  conv_transpose3d (convt_conv self) x.

(** ** ConvModule: [ConvMod] (lines 101-141) *)

Record ConvMod : Type := {
  cm_conv1 : Conv;
  cm_conv2 : Conv;
  cm_conv3 : Conv;
  cm_bn1 : norm;
  cm_bn2 : norm;
  cm_bn3 : norm;
  cm_activation : tensor -> result tensor;
  cm_residual : bool
}.

Definition ConvMod_init (in_channels out_channels : Z) (kernel_size : pyval)
    (activation : tensor -> result tensor) (residual use_bn : bool)
    (momentum : Q) (track : bool) : M ConvMod :=
  let ks := _triple kernel_size in
  let st := PSeq [1; 1; 1] in
  let! pad := liftM (pad_size ks "same") in
  let bias := negb use_bn in
  let! conv1 := Conv_init in_channels out_channels ks st (PSeq pad) bias in
  let! conv2 := Conv_init out_channels out_channels ks st (PSeq pad) bias in
  let! conv3 := Conv_init out_channels out_channels ks st (PSeq pad) bias in
  let bn1 := batchnorm out_channels use_bn momentum track in
  let bn2 := batchnorm out_channels use_bn momentum track in
  let bn3 := batchnorm out_channels use_bn momentum track in
  retM {| cm_conv1 := conv1; cm_conv2 := conv2; cm_conv3 := conv3;
          cm_bn1 := bn1; cm_bn2 := bn2; cm_bn3 := bn3;
          cm_activation := activation; cm_residual := residual |}.

Definition ConvMod_forward (self : ConvMod) (x : tensor) : result tensor :=
  (* Conv 1. *)
  let* x := Conv_forward (cm_conv1 self) x in
  let* x := norm_call (cm_bn1 self) x in
  let* x := cm_activation self x in
  let skip := x in
  (* Conv 2. *)
  let* x := Conv_forward (cm_conv2 self) x in
  let* x := norm_call (cm_bn2 self) x in
  let* x := cm_activation self x in
  (* Conv 3. *)
  let* x := Conv_forward (cm_conv3 self) x in
  let* x := residual_sum x skip (cm_residual self) in
  let* x := norm_call (cm_bn3 self) x in
  cm_activation self x.

(** ** UpsampleModule: [UpsampleMod] (lines 143-176) *)

(** [self.up]: an [nn.Upsample] or a [ConvT]. *)
Inductive up_layer : Type :=
  | UpInterp (scale_factor : pyval) (mode : string)
  | UpConvT (c : ConvT).

(** [self.conv]: a [Conv] or [lambda x: x]. *)
Inductive conv_or_id : Type :=
  | SomeConv (c : Conv)
  | IdentityConv.

Record UpsampleMod : Type := {
  um_up : up_layer;
  um_conv : conv_or_id;
  um_bn : norm;
  um_activation : tensor -> result tensor
}.

Definition UpsampleMod_init (in_channels out_channels : Z) (up : pyval)
    (mode : string) (activation : tensor -> result tensor) (use_bn : bool)
    (momentum : Q) (track : bool) : M UpsampleMod :=
  let ks := PSeq [1; 1; 1] in
  let st := PSeq [1; 1; 1] in
  let pad := PSeq [0; 0; 0] in
  let bias := false in
  let! '(u, c) :=
    if String.eqb mode "bilinear" then
      let u := UpInterp up "trilinear" in
      let! c := Conv_init in_channels out_channels ks st pad bias in
      retM (u, SomeConv c)
    else if String.eqb mode "nearest" then
      let u := UpInterp up "nearest" in
      let! c := Conv_init in_channels out_channels ks st pad bias in
      retM (u, SomeConv c)
    else if String.eqb mode "transpose" then
      let! t := ConvT_init in_channels out_channels up up (PInt 0) (PInt 0)
                  bias in
      retM (UpConvT t, IdentityConv)
    else
      liftM (Err (AssertionError "unknown upsampling mode")) in
  let bn := batchnorm out_channels use_bn momentum track in
  retM {| um_up := u; um_conv := c; um_bn := bn;
          um_activation := activation |}.

Definition up_call (u : up_layer) (x : tensor) : result tensor :=
  match u with
  | UpInterp scale_factor mode => upsample scale_factor mode x
  | UpConvT c => ConvT_forward c x
  end.

Definition conv_or_id_call (c : conv_or_id) (x : tensor) : result tensor :=
  match c with
  | SomeConv c => Conv_forward c x
  | IdentityConv => Ok x
  end.

Definition UpsampleMod_forward (self : UpsampleMod) (x skip : tensor)
  : result tensor :=
  let* x := up_call (um_up self) x in
  let* x := conv_or_id_call (um_conv self) x in
  let* s := tensor_add x skip in
  let* x := norm_call (um_bn self) s in
  um_activation self x.

(** ** Embedding and output modules (lines 179-236) *)

Record EmbeddingMod : Type := {
  em_conv : Conv;
  em_activation : tensor -> result tensor
}.

Definition EmbeddingMod_init (in_channels out_channels : Z)
    (kernel_size : pyval) (activation : tensor -> result tensor)
    (stride : pyval) : M EmbeddingMod :=
  let! pad := liftM (pad_size kernel_size "same") in
  let! conv := Conv_init in_channels out_channels kernel_size stride
                 (PSeq pad) false in
  retM {| em_conv := conv; em_activation := activation |}.

Definition EmbeddingMod_forward (self : EmbeddingMod) (x : tensor)
  : result tensor :=
  let* y := Conv_forward (em_conv self) x in
  em_activation self y.

Record EmbeddingModUP : Type := {
  eu_conv : ConvT;
  eu_activation : tensor -> result tensor
}.

Definition EmbeddingModUP_init (in_channels out_channels : Z)
    (kernel_size : pyval) (activation : tensor -> result tensor)
    (stride : pyval) : M EmbeddingModUP :=
  let! pad := liftM (pad_size kernel_size "same") in
  let! conv := ConvT_init in_channels out_channels kernel_size stride
                 (PSeq pad) (PSeq [0; 1; 1]) false in
  retM {| eu_conv := conv; eu_activation := activation |}.

Definition EmbeddingModUP_forward (self : EmbeddingModUP) (x : tensor)
  : result tensor :=
  let* y := ConvT_forward (eu_conv self) x in
  eu_activation self y.

Record OutputMod : Type := { om_conv : Conv }.

Definition OutputMod_init (in_channels out_channels : Z)
    (kernel_size : pyval) : M OutputMod :=
  let! padding := liftM (pad_size kernel_size "same") in
  let! conv := Conv_init in_channels out_channels kernel_size (PInt 1)
                 (PSeq padding) false in
  retM {| om_conv := conv |}.

Definition OutputMod_forward (self : OutputMod) (x : tensor) : result tensor :=
  Conv_forward (om_conv self) x.

(** ** NetworkBuilder: [RSUNet] (lines 239-361) *)

(** A registered sub-module ([nn.Module._modules] holds any of these). *)
Inductive module : Type :=
  | MConvMod (m : ConvMod)
  | MMaxPool3d (kernel_size : pyval)
  | MUpsampleMod (m : UpsampleMod)
  | MEmbeddingMod (m : EmbeddingMod)
  | MEmbeddingModUP (m : EmbeddingModUP)
  | MOutputMod (m : OutputMod).

Record RSUNet : Type := {
  net_residual : bool;
  net_upsample : string;
  net_use_bn : bool;
  net_momentum : Q;
  net_depth : Z;
  _modules : gmap string module
}.

(** [self.add_module(name, module)], also what [self.name = module] does. *)
Definition add_module (self : RSUNet) (name : string) (m : module) : RSUNet :=
  {| net_residual := net_residual self; net_upsample := net_upsample self;
     net_use_bn := net_use_bn self; net_momentum := net_momentum self;
     net_depth := net_depth self;
     _modules := <[name := m]> (_modules self) |}.

(** [self.depth = depth] *)
Definition set_depth (self : RSUNet) (depth : Z) : RSUNet :=
  {| net_residual := net_residual self; net_upsample := net_upsample self;
     net_use_bn := net_use_bn self; net_momentum := net_momentum self;
     net_depth := depth;
     _modules := _modules self |}.

(** ['convmod{}'.format(d)] and the like. *)
Definition format (prefix : string) (d : Z) : string := prefix +:+ pretty d.

Definition add_conv_mod (self : RSUNet) (depth in_channels out_channels : Z)
    (kernel_size : pyval) (track : bool)
    (activation : tensor -> result tensor) : M RSUNet :=
  let name := format "convmod" depth in
  let! m := ConvMod_init in_channels out_channels kernel_size activation
              (net_residual self) (net_use_bn self) (net_momentum self)
              track in
  retM (add_module self name (MConvMod m)).

Definition add_dconv_mod (self : RSUNet) (depth in_channels out_channels : Z)
    (kernel_size : pyval) (track : bool)
    (activation : tensor -> result tensor) : M RSUNet :=
  let name := format "dconvmod" depth in
  let! m := ConvMod_init in_channels out_channels kernel_size activation
              (net_residual self) (net_use_bn self) (net_momentum self)
              track in
  retM (add_module self name (MConvMod m)).

Definition add_max_pool (self : RSUNet) (depth in_channels : Z) (down : pyval)
  : M RSUNet :=
  let name := format "maxpool" depth in
  let m := MMaxPool3d down in
  retM (add_module self name m).

Definition add_upsample_mod (self : RSUNet)
    (depth in_channels out_channels : Z) (up : pyval) (track : bool)
    (activation : tensor -> result tensor) : M RSUNet :=
  let name := format "upsample" depth in
  let! m := UpsampleMod_init in_channels out_channels up (net_upsample self)
              activation (net_use_bn self) (net_momentum self) track in
  retM (add_module self name (MUpsampleMod m)).

(** One round of the contracting loop (lines 280-283); the loop state is
    [(self, in_channels)]. *)
Definition contracting_step (nfeatures : list Z) (track : bool)
    (activation : tensor -> result tensor) (st : RSUNet * Z) (d : Z)
  : M (RSUNet * Z) :=
  let '(self, in_channels) := st in
  let! fs := liftM (py_index nfeatures d) in
  let! ks := liftM (py_index sizes d) in
  let! self := add_conv_mod self d in_channels fs ks track activation in
  let! self := add_max_pool self (d + 1) fs (PInt 2) in
  retM (self, fs).

(** One round of the expanding loop (lines 292-295). *)
Definition expanding_step (nfeatures : list Z) (track : bool)
    (activation : tensor -> result tensor) (st : RSUNet * Z) (d : Z)
  : M (RSUNet * Z) :=
  let '(self, in_channels) := st in
  let! fs := liftM (py_index nfeatures d) in
  let! ks := liftM (py_index sizes d) in
  let! self := add_upsample_mod self d in_channels fs (PInt 2) track
                 activation in
  let in_channels := fs in
  let! self := add_dconv_mod self d in_channels fs ks track activation in
  retM (self, in_channels).

Definition RSUNet_init (aff depth : Z) (residual : bool) (upsample : string)
    (use_bn : bool) (momentum : Q) (track : bool)
    (activation : tensor -> result tensor) (init_stride : pyval)
    (nfeatures : list Z) (mode : string) : M RSUNet :=
  let self := {| net_residual := residual; net_upsample := upsample;
                 net_use_bn := use_bn; net_momentum := momentum;
                 net_depth := 0; _modules := ∅ |} in
  let! _ := set_MODE mode in
  let in_channels := 1 in
  (* Model depth (# scales == depth + 1). *)
  let! _ := liftM (assert (depth <? py_len nfeatures)
                     "depth < len(nfeatures)") in
  let self := set_depth self depth in
  (* Input feature embedding without batchnorm. *)
  let! embed_in := EmbeddingMod_init in_channels embed_nin embed_ks
                     activation init_stride in
  let self := add_module self "embed_in" (MEmbeddingMod embed_in) in
  let in_channels := embed_nin in
  (* Contracting/downsampling pathway. *)
  let! '(self, in_channels) :=
    foldMM (contracting_step nfeatures track activation) (range depth)
      (self, in_channels) in
  (* Bridge. *)
  let! fs := liftM (py_index nfeatures depth) in
  let! ks := liftM (py_index sizes depth) in
  let! self := add_conv_mod self depth in_channels fs ks track activation in
  let in_channels := fs in
  (* Expanding/upsampling pathway. *)
  let! '(self, in_channels) :=
    foldMM (expanding_step nfeatures track activation) (reversed_range depth)
      (self, in_channels) in
  (* Output feature embedding without batchnorm. *)
  let! self :=
    if py_eq_int init_stride 1 then
      let! m := EmbeddingMod_init in_channels embed_nout embed_ks activation
                  (PInt 1) in
      retM (add_module self "embed_out" (MEmbeddingMod m))
    else
      let! m := EmbeddingModUP_init in_channels embed_nout embed_ks
                  activation init_stride in
      retM (add_module self "embed_out" (MEmbeddingModUP m)) in
  let in_channels := embed_nout in
  (* Output by spec. *)
  let! output := OutputMod_init in_channels aff (PInt 1) in
  retM (add_module self "output" (MOutputMod output)).

(** [getattr(self, name)] on a registered sub-module. *)
Definition getattr (self : RSUNet) (name : string) : result module :=
  match _modules self !! name with
  | Some m => Ok m
  | None => Err (AttributeError name)
  end.

(** [m(x)] or [m(x, skip)]: the call goes to the [forward] of whatever module [m] is;
    a wrong number of arguments raises [TypeError]. *)
Definition call (m : module) (args : list tensor) : result tensor :=
  match m, args with
  | MConvMod c, [x] => ConvMod_forward c x
  | MMaxPool3d k, [x] => max_pool3d k x
  | MUpsampleMod u, [x; skip] => UpsampleMod_forward u x skip
  | MEmbeddingMod e, [x] => EmbeddingMod_forward e x
  | MEmbeddingModUP e, [x] => EmbeddingModUP_forward e x
  | MOutputMod o, [x] => OutputMod_forward o x
  | _, _ => Err TypeError
  end.

(** One round of the contracting loop of [forward] (lines 342-346); the
    loop state is [(x, skip)]. *)
Definition forward_down (self : RSUNet) (st : tensor * list tensor) (d : Z)
  : result (tensor * list tensor) :=
  let '(x, skip) := st in
  let* convmod := getattr self (format "convmod" d) in
  let* maxpool := getattr self (format "maxpool" (d + 1)) in
  let* x := call convmod [x] in
  let skip := (skip ++ [x])%list in
  let* x := call maxpool [x] in
  Ok (x, skip).

(** One round of the expanding loop of [forward] (lines 354-356). *)
Definition forward_up (self : RSUNet) (skip : list tensor) (x : tensor)
    (d : Z) : result tensor :=
  let* upsample := getattr self (format "upsample" d) in
  let* dconvmod := getattr self (format "dconvmod" d) in
  let* s := py_index skip d in
  let* u := call upsample [x; s] in
  call dconvmod [u].

Definition RSUNet_forward (self : RSUNet) (x : tensor) : result tensor :=
  (* Input feature embedding without batchnorm. *)
  let* embed_in := getattr self "embed_in" in
  let* x := call embed_in [x] in
  (* Contracting/downsmapling pathway. *)
  let skip := [] in
  let* '(x, skip) :=
    foldM (forward_down self) (range (net_depth self)) (x, skip) in
  (* Bridge. *)
  let* bridge := getattr self (format "convmod" (net_depth self)) in
  let* x := call bridge [x] in
  (* Expanding/upsampling pathway. *)
  let* x :=
    foldM (forward_up self skip) (reversed_range (net_depth self)) x in
  (* Output feature embedding without batchnorm. *)
  let* embed_out := getattr self "embed_out" in
  let* x := call embed_out [x] in
  let* output := getattr self "output" in
  call output [x].

End Network.

(** ** Tensors as shapes

    The instance of [Engine] that keeps only the shape of a tensor,
    [(N, C, D, H, W)], following the shape rules of the torch operations
    the module calls. *)

Module Shape.

(** A per-axis argument of a 3-d layer: an int stands for all three axes. *)
Definition triple (v : pyval) : result (Z * Z * Z) :=
  match v with
  | PInt z => Ok (z, z, z)
  | PSeq [a; b; c] => Ok (a, b, c)
  | PSeq _ => Err (RuntimeError "expected a single int or 3 values")
  end.

(** Output length of a convolution along one axis. *)
Definition conv_out (d k s p : Z) : result Z :=
  if (0 <? s) && (k <=? d + 2 * p) then Ok ((d + 2 * p - k) / s + 1)
  else Err (RuntimeError "kernel size can't be greater than input size").

(** Output length of a transposed convolution along one axis; the output
    padding must be smaller than the stride (the dilation is 1). *)
Definition conv_transpose_out (d k s p op : Z) : result Z :=
  if (0 <? s) && ((op <? s) || (op <? 1)) then
    let o := (d - 1) * s - 2 * p + (k - 1) + op + 1 in
    if 0 <? o then Ok o else Err (RuntimeError "output size is too small")
  else Err (RuntimeError "output padding must be smaller than stride").

(** Output length of a max-pooling (stride = kernel size, no padding). *)
Definition pool_out (d k : Z) : result Z :=
  if 0 <? k then
    let o := (d - k) / k + 1 in
    if 0 <? o then Ok o else Err (RuntimeError "output size is too small")
  else Err (RuntimeError "pooling kernel must be positive").

Definition conv3d (l : conv3d_layer) (x : list Z) : result (list Z) :=
  match x with
  | [n; c; d; h; w] =>
    if c =? c_in l then
      let* '(kd, kh, kw) := triple (c_kernel l) in
      let* '(sd, sh, sw) := triple (c_stride l) in
      let* '(pd, ph, pw) := triple (c_padding l) in
      let* d' := conv_out d kd sd pd in
      let* h' := conv_out h kh sh ph in
      let* w' := conv_out w kw sw pw in
      Ok [n; c_out l; d'; h'; w']
    else Err (RuntimeError "input channels do not match the weight")
  | _ => Err (RuntimeError "expected a 5-d input")
  end.

Definition conv_transpose3d (l : convT3d_layer) (x : list Z)
  : result (list Z) :=
  match x with
  | [n; c; d; h; w] =>
    if c =? ct_in l then
      let* '(kd, kh, kw) := triple (ct_kernel l) in
      let* '(sd, sh, sw) := triple (ct_stride l) in
      let* '(pd, ph, pw) := triple (ct_padding l) in
      let* '(od, oh, ow) := triple (ct_out_pad l) in
      let* d' := conv_transpose_out d kd sd pd od in
      let* h' := conv_transpose_out h kh sh ph oh in
      let* w' := conv_transpose_out w kw sw pw ow in
      Ok [n; ct_out l; d'; h'; w']
    else Err (RuntimeError "input channels do not match the weight")
  | _ => Err (RuntimeError "expected a 5-d input")
  end.

(** Batch statistics need more than one value per channel (the module is
    never put in evaluation mode by the source). *)
Definition batch_norm3d (l : batchnorm3d_layer) (x : list Z)
  : result (list Z) :=
  match x with
  | [n; c; d; h; w] =>
    if c =? bn_features l then
      if 1 <? n * d * h * w then Ok x else Err ValueError
    else Err (RuntimeError "running statistics do not match the channels")
  | _ => Err (ValueError)
  end.

Definition max_pool3d (kernel_size : pyval) (x : list Z) : result (list Z) :=
  match x with
  | [n; c; d; h; w] =>
    let* '(kd, kh, kw) := triple kernel_size in
    let* d' := pool_out d kd in
    let* h' := pool_out h kh in
    let* w' := pool_out w kw in
    Ok [n; c; d'; h'; w']
  | _ => Err (RuntimeError "expected a 5-d input")
  end.

Definition upsample (scale_factor : pyval) (mode : string) (x : list Z)
  : result (list Z) :=
  match x with
  | [n; c; d; h; w] =>
    let* '(sd, sh, sw) := triple scale_factor in
    if (0 <? sd * d) && (0 <? sh * h) && (0 <? sw * w) then
      Ok [n; c; sd * d; sh * h; sw * w]
    else Err (RuntimeError "output size is too small")
  | _ => Err (RuntimeError "expected a 5-d input")
  end.

(** Broadcasting, on the reversed shapes: trailing axes are aligned, and two
    lengths agree when they are equal or one of them is 1. *)
Fixpoint broadcast_rev (a b : list Z) : result (list Z) :=
  match a, b with
  | [], _ => Ok b
  | _, [] => Ok a
  | x :: a', y :: b' =>
    let* r := broadcast_rev a' b' in
    if x =? y then Ok (x :: r)
    else if x =? 1 then Ok (y :: r)
    else if y =? 1 then Ok (x :: r)
    else Err (RuntimeError "tensor sizes must match")
  end.

Definition tensor_add (a b : list Z) : result (list Z) :=
  map_result (@rev Z) (broadcast_rev (rev a) (rev b)).

(** [F.elu], the default activation: elementwise. *)
Definition elu (x : list Z) : result (list Z) := Ok x.

End Shape.

Definition shape_engine : Engine := {|
  tensor := list Z;
  conv3d := Shape.conv3d;
  conv_transpose3d := Shape.conv_transpose3d;
  batch_norm3d := Shape.batch_norm3d;
  max_pool3d := Shape.max_pool3d;
  upsample := Shape.upsample;
  tensor_add := Shape.tensor_add
|}.

(** The exceptions of torch itself, as opposed to those of the module's own
    code ([AssertionError], [IndexError], [AttributeError], [TypeError]). *)
Definition engine_exn (e : exn) : Prop :=
  match e with
  | RuntimeError _ | ValueError => True
  | _ => False
  end.

(** ** Specification-side and proof-side definitions *)

Section Observations.

Context {E : Engine}.

(** The six steps of section 4.3 of the specification, as written there:
    [h = activation(norm1(conv1(x)))], [skip = h],
    [h = activation(norm2(conv2(h)))], [h = conv3(h)],
    [h = residual_enabled ? h + skip : h], [return activation(norm3(h))]. *)
Definition ConvModule_apply_spec (self : ConvMod) (x : tensor)
  : result tensor :=
  let conv1 := Conv_forward (cm_conv1 self) in
  let conv2 := Conv_forward (cm_conv2 self) in
  let conv3 := Conv_forward (cm_conv3 self) in
  let norm1 := norm_call (cm_bn1 self) in
  let norm2 := norm_call (cm_bn2 self) in
  let norm3 := norm_call (cm_bn3 self) in
  let activation := cm_activation self in
  let residual_enabled := cm_residual self in
  (* 1 *)
  let* c := conv1 x in
  let* n := norm1 c in
  let* h := activation n in
  (* 2 *)
  let skip := h in
  (* 3 *)
  let* c := conv2 h in
  let* n := norm2 c in
  let* h := activation n in
  (* 4 *)
  let* h := conv3 h in
  (* 5 *)
  let* h := if residual_enabled then tensor_add h skip else Ok h in
  (* 6 *)
  let* n := norm3 h in
  activation n.

(** What happens to the skip list during one forward pass: [skip.append(x)]
    at contracting stage [d], and the read [skip[d]] that expanding stage
    [d] hands to its upsample module. *)
Inductive skip_event : Type :=
  | Recorded (d : Z) (t : tensor)
  | Consumed (d : Z) (t : tensor).

(** [forward_down], [forward_up] and [RSUNet_forward] again, with a log of
    the skip events as extra (ghost) state; nothing else differs
    ([RSUNet_forward_erase] below). *)
Definition forward_down_traced (self : RSUNet)
    (st : tensor * list tensor * list skip_event) (d : Z)
  : result (tensor * list tensor * list skip_event) :=
  let '(x, skip, tr) := st in
  let* convmod := getattr self (format "convmod" d) in
  let* maxpool := getattr self (format "maxpool" (d + 1)) in
  let* x := call convmod [x] in
  let skip := (skip ++ [x])%list in
  let tr := (tr ++ [Recorded d x])%list in
  let* x := call maxpool [x] in
  Ok (x, skip, tr).

Definition forward_up_traced (self : RSUNet) (skip : list tensor)
    (st : tensor * list skip_event) (d : Z)
  : result (tensor * list skip_event) :=
  let '(x, tr) := st in
  let* upsample := getattr self (format "upsample" d) in
  let* dconvmod := getattr self (format "dconvmod" d) in
  let* s := py_index skip d in
  let tr := (tr ++ [Consumed d s])%list in
  let* u := call upsample [x; s] in
  let* x := call dconvmod [u] in
  Ok (x, tr).

Definition RSUNet_forward_traced (self : RSUNet) (x : tensor)
  : result (tensor * list skip_event) :=
  let* embed_in := getattr self "embed_in" in
  let* x := call embed_in [x] in
  let* '(x, skip, tr) :=
    foldM (forward_down_traced self) (range (net_depth self)) (x, [], []) in
  let* bridge := getattr self (format "convmod" (net_depth self)) in
  let* x := call bridge [x] in
  let* '(x, tr) :=
    foldM (forward_up_traced self skip) (reversed_range (net_depth self))
      (x, tr) in
  let* embed_out := getattr self "embed_out" in
  let* x := call embed_out [x] in
  let* output := getattr self "output" in
  let* x := call output [x] in
  Ok (x, tr).

(** The log of a pass that records [ts] at stages [0, 1, ...] and reads the
    same tensors back, last recorded first. *)
Definition lifo_trace (ts : list tensor) : list skip_event :=
  let stages := zip (range (py_len ts)) ts in
  (map (fun p => Recorded (fst p) (snd p)) stages
   ++ map (fun p => Consumed (fst p) (snd p)) (rev stages))%list.

(** The stages [(0, t0), (1, t1), ...] of a skip list. *)
Definition stages (skip : list tensor) : list (Z * tensor) :=
  zip (map Z.of_nat (seq 0 (length skip))) skip.

Definition recorded (p : Z * tensor) : skip_event := Recorded (fst p) (snd p).
Definition consumed (p : Z * tensor) : skip_event := Consumed (fst p) (snd p).

(** The skip list after [k] contracting rounds, each skip satisfying the
    predicate [K] of its stage. *)
Definition skips_ok (K : Z -> tensor -> Prop) (k : nat) (skip : list tensor)
  : Prop :=
  length skip = k /\
  forall j s, skip !! j = Some s -> K (Z.of_nat j) s.

(** Counting the registered sub-modules of one kind. *)
Definition is_pool (m : module) : bool :=
  match m with MMaxPool3d _ => true | _ => false end.

Definition is_upsample (m : module) : bool :=
  match m with MUpsampleMod _ => true | _ => false end.

Definition count_modules (p : module -> bool) (self : RSUNet) : nat :=
  size (filter (fun kv => p (snd kv) = true) (_modules self)).

(** The convolution backends held by a module ([ConvT] has no choice of
    backend). *)
Definition Conv_backend (c : Conv) : backend := c_backend (conv_conv c).

Definition module_backends (m : module) : list backend :=
  match m with
  | MConvMod c =>
    [Conv_backend (cm_conv1 c); Conv_backend (cm_conv2 c);
     Conv_backend (cm_conv3 c)]
  | MMaxPool3d _ => []
  | MUpsampleMod u =>
    match um_conv u with
    | SomeConv c => [Conv_backend c]
    | IdentityConv => []
    end
  | MEmbeddingMod e => [Conv_backend (em_conv e)]
  | MEmbeddingModUP _ => []
  | MOutputMod o => [Conv_backend (om_conv o)]
  end.

(** The backends of all the convolutions of a network. *)
Definition net_backends (self : RSUNet) : list backend :=
  concat (map (fun kv => module_backends (snd kv))
            (map_to_list (_modules self))).

(** The backend [Conv.__init__] picks when the global [MODE] is [mode]. *)
Definition backend_of (mode : string) : backend :=
  if String.eqb mode "tvm" then Fast3d else Torch.

(** Every operation of the engine, and the activation [act], raises only
    exceptions in [P]. *)
Definition raises_only {A : Type} (P : exn -> Prop) (r : result A) : Prop :=
  match r with
  | Ok _ => True
  | Err e => P e
  end.

Record engine_raises_only (P : exn -> Prop)
    (act : tensor -> result tensor) : Prop := {
  ero_conv3d : forall l x, raises_only P (conv3d l x);
  ero_conv_transpose3d : forall l x, raises_only P (conv_transpose3d l x);
  ero_batch_norm3d : forall l x, raises_only P (batch_norm3d l x);
  ero_max_pool3d : forall k x, raises_only P (max_pool3d k x);
  ero_upsample : forall s m x, raises_only P (upsample s m x);
  ero_tensor_add : forall x y, raises_only P (tensor_add x y);
  ero_act : forall x, raises_only P (act x)
}.

(** *** The values the constructors return *)

Definition mk_Conv (b : backend) (cin cout : Z) (ks st pad : pyval) : Conv :=
  {| conv_conv :=
       {| c_backend := b; c_in := cin; c_out := cout; c_kernel := ks;
          c_stride := st; c_padding := pad; c_weight := KaimingNormal;
          c_bias := None |} |}.

Definition mk_ConvT (cin cout : Z) (ks st pad out_pad : pyval) : ConvT :=
  {| convt_conv :=
       {| ct_in := cin; ct_out := cout; ct_kernel := ks; ct_stride := st;
          ct_padding := pad; ct_out_pad := out_pad;
          ct_weight := KaimingNormal; ct_bias := None |} |}.

Definition mk_bn (c : Z) (momentum : Q) (track : bool) : norm :=
  BatchNorm3d {| bn_features := c; bn_momentum := momentum;
                 bn_track := track |}.

(** A [ConvMod] built with batch normalisation on. *)
Definition mk_ConvMod (b : backend) (cin cout : Z) (ks : pyval)
    (pad : list Z) (act : tensor -> result tensor) (residual : bool)
    (momentum : Q) (track : bool) : ConvMod :=
  let st := PSeq [1; 1; 1] in
  {| cm_conv1 := mk_Conv b cin cout ks st (PSeq pad);
     cm_conv2 := mk_Conv b cout cout ks st (PSeq pad);
     cm_conv3 := mk_Conv b cout cout ks st (PSeq pad);
     cm_bn1 := mk_bn cout momentum track;
     cm_bn2 := mk_bn cout momentum track;
     cm_bn3 := mk_bn cout momentum track;
     cm_activation := act; cm_residual := residual |}.

Definition mk_UpsampleMod (b : backend) (cin cout : Z) (up : pyval)
    (mode : string) (act : tensor -> result tensor) (use_bn : bool)
    (momentum : Q) (track : bool) : option UpsampleMod :=
  let one := PSeq [1; 1; 1] in
  let zero := PSeq [0; 0; 0] in
  let bn := batchnorm cout use_bn momentum track in
  if String.eqb mode "bilinear" then
    Some {| um_up := UpInterp up "trilinear";
            um_conv := SomeConv (mk_Conv b cin cout one one zero);
            um_bn := bn; um_activation := act |}
  else if String.eqb mode "nearest" then
    Some {| um_up := UpInterp up "nearest";
            um_conv := SomeConv (mk_Conv b cin cout one one zero);
            um_bn := bn; um_activation := act |}
  else if String.eqb mode "transpose" then
    Some {| um_up := UpConvT (mk_ConvT cin cout up up (PInt 0) (PInt 0));
            um_conv := IdentityConv;
            um_bn := bn; um_activation := act |}
  else None.

Definition mk_EmbeddingMod (b : backend) (cin cout : Z) (ks : pyval)
    (pad : list Z) (act : tensor -> result tensor) (stride : pyval)
  : EmbeddingMod :=
  {| em_conv := mk_Conv b cin cout ks stride (PSeq pad);
     em_activation := act |}.

Definition mk_EmbeddingModUP (cin cout : Z) (ks : pyval) (pad : list Z)
    (act : tensor -> result tensor) (stride : pyval) : EmbeddingModUP :=
  {| eu_conv := mk_ConvT cin cout ks stride (PSeq pad) (PSeq [0; 1; 1]);
     eu_activation := act |}.

Definition mk_OutputMod (b : backend) (cin cout : Z) : OutputMod :=
  {| om_conv := mk_Conv b cin cout (PInt 1) (PInt 1) (PSeq [0; 0; 0]) |}.

(** *** The attribute names [RSUNet.__init__] registers *)

Inductive slot : Type :=
  | SEmbedIn
  | SConvmod (d : Z)
  | SMaxpool (d : Z)
  | SUpsample (d : Z)
  | SDconvmod (d : Z)
  | SEmbedOut
  | SOutput.

Definition slot_name (s : slot) : string :=
  match s with
  | SEmbedIn => "embed_in"
  | SConvmod d => format "convmod" d
  | SMaxpool d => format "maxpool" d
  | SUpsample d => format "upsample" d
  | SDconvmod d => format "dconvmod" d
  | SEmbedOut => "embed_out"
  | SOutput => "output"
  end.

(** *** What a construction has registered so far *)

(** The arguments of [RSUNet.__init__]. *)
Record config : Type := {
  cfg_aff : Z;
  cfg_depth : Z;
  cfg_residual : bool;
  cfg_upsample : string;
  cfg_use_bn : bool;
  cfg_momentum : Q;
  cfg_track : bool;
  cfg_activation : tensor -> result tensor;
  cfg_init_stride : pyval;
  cfg_nfeatures : list Z;
  cfg_mode : string
}.

Definition build (c : config) : M RSUNet :=
  RSUNet_init (cfg_aff c) (cfg_depth c) (cfg_residual c) (cfg_upsample c)
    (cfg_use_bn c) (cfg_momentum c) (cfg_track c) (cfg_activation c)
    (cfg_init_stride c) (cfg_nfeatures c) (cfg_mode c).

(** [nfeatures[d]] (0 when the index is out of range). *)
Definition chan (c : config) (d : Z) : Z :=
  match py_index (cfg_nfeatures c) d with
  | Ok fs => fs
  | Err _ => 0
  end.

(** The value of [in_channels] when contracting round [d] starts. *)
Definition chan_in (c : config) (d : Z) : Z :=
  if d =? 0 then embed_nin else chan c (d - 1).

(** The number of rounds of each loop: [len(range(depth))]. *)
Definition rounds (c : config) : Z := Z.max 0 (cfg_depth c).

(** How far [__init__] has come: the contracting modules [convmod0 ..
    convmod(ph_conv-1)] and [maxpool1 .. maxpool(ph_pool)] added, the bridge
    added or not, the expanding modules [upsample(d)] for [d >= ph_upsample]
    and [dconvmod(d)] for [d >= ph_dconv] added, and the two last modules
    added or not. *)
Record phase : Type := {
  ph_conv : Z;
  ph_pool : Z;
  ph_bridge : bool;
  ph_upsample : Z;
  ph_dconv : Z;
  ph_embed_out : bool;
  ph_output : bool
}.

Definition the_ConvMod (c : config) (cin cout : Z) : module :=
  MConvMod (mk_ConvMod (backend_of (cfg_mode c)) cin cout (PSeq [3; 3; 3])
              [1; 1; 1] (cfg_activation c) (cfg_residual c) (cfg_momentum c)
              (cfg_track c)).

Definition the_embed_out (c : config) : module :=
  let cin := if 0 <? cfg_depth c then chan c 0 else chan c (cfg_depth c) in
  if py_eq_int (cfg_init_stride c) 1 then
    MEmbeddingMod (mk_EmbeddingMod (backend_of (cfg_mode c)) cin embed_nout
                     embed_ks [0; 2; 2] (cfg_activation c) (PInt 1))
  else
    MEmbeddingModUP (mk_EmbeddingModUP cin embed_nout embed_ks [0; 2; 2]
                       (cfg_activation c) (cfg_init_stride c)).

(** The module registered under each name at a given phase. *)
Definition expected (c : config) (ph : phase) (s : slot) : option module :=
  match s with
  | SEmbedIn =>
    Some (MEmbeddingMod
            (mk_EmbeddingMod (backend_of (cfg_mode c)) 1 embed_nin embed_ks
               [0; 2; 2] (cfg_activation c) (cfg_init_stride c)))
  | SConvmod d =>
    if bool_decide (0 <= d < ph_conv ph) then
      Some (the_ConvMod c (chan_in c d) (chan c d))
    else if ph_bridge ph && bool_decide (d = cfg_depth c) then
      Some (the_ConvMod c (chan_in c (rounds c)) (chan c (cfg_depth c)))
    else None
  | SMaxpool d =>
    if bool_decide (1 <= d <= ph_pool ph) then Some (MMaxPool3d (PInt 2))
    else None
  | SUpsample d =>
    if bool_decide (ph_upsample ph <= d < rounds c) then
      option_map MUpsampleMod
        (mk_UpsampleMod (backend_of (cfg_mode c)) (chan c (d + 1)) (chan c d)
           (PInt 2) (cfg_upsample c) (cfg_activation c) (cfg_use_bn c)
           (cfg_momentum c) (cfg_track c))
    else None
  | SDconvmod d =>
    if bool_decide (ph_dconv ph <= d < rounds c) then
      Some (the_ConvMod c (chan c d) (chan c d))
    else None
  | SEmbedOut => if ph_embed_out ph then Some (the_embed_out c) else None
  | SOutput =>
    if ph_output ph then
      Some (MOutputMod (mk_OutputMod (backend_of (cfg_mode c)) embed_nout
                          (cfg_aff c)))
    else None
  end.

(** [self] is what [__init__] has built at phase [ph]. *)
Record registered (c : config) (ph : phase) (self : RSUNet) : Prop := {
  reg_residual : net_residual self = cfg_residual c;
  reg_upsample : net_upsample self = cfg_upsample c;
  reg_use_bn : net_use_bn self = cfg_use_bn c;
  reg_momentum : net_momentum self = cfg_momentum c;
  reg_depth : net_depth self = cfg_depth c;
  reg_lookup : forall s, _modules self !! slot_name s = expected c ph s;
  reg_closed : forall name m,
    _modules self !! name = Some m -> exists s, name = slot_name s;
  reg_pools : count_modules is_pool self = Z.to_nat (ph_pool ph);
  reg_ups :
    count_modules is_upsample self = Z.to_nat (rounds c - ph_upsample ph)
}.

(** The three upsampling modes [UpsampleMod.__init__] knows. *)
Definition upsample_known (mode : string) : bool :=
  String.eqb mode "bilinear" || String.eqb mode "nearest"
  || String.eqb mode "transpose".

(** The finished network. *)
Definition finished (c : config) : phase :=
  {| ph_conv := rounds c; ph_pool := rounds c; ph_bridge := true;
     ph_upsample := 0; ph_dconv := 0; ph_embed_out := true;
     ph_output := true |}.

(** The phases of [__init__]. *)
Definition down_phase (c : config) (nconv npool : Z) : phase :=
  {| ph_conv := nconv; ph_pool := npool; ph_bridge := false;
     ph_upsample := rounds c; ph_dconv := rounds c; ph_embed_out := false;
     ph_output := false |}.

Definition up_phase (c : config) (nup ndconv : Z) (eo : bool) : phase :=
  {| ph_conv := rounds c; ph_pool := rounds c; ph_bridge := true;
     ph_upsample := nup; ph_dconv := ndconv; ph_embed_out := eo;
     ph_output := false |}.

(** What is known of a network that [__init__] returned. *)
Record built (c : config) (net : RSUNet) : Prop := {
  built_registered : registered c (finished c) net;
  built_use_bn : cfg_use_bn c = true;
  built_depth : cfg_depth c < py_len (cfg_nfeatures c);
  built_upsample : 0 < cfg_depth c -> upsample_known (cfg_upsample c) = true
}.

End Observations.

(** Running the module on shapes, from the globals [g], with the defaults
    of [RSUNet.__init__] for every argument that is not listed. *)
Abbreviation shape_net_from g aff depth upsample use_bn init_stride nfeatures
    mode :=
  (RSUNet_init (E := shape_engine) aff depth true upsample use_bn (1 # 1000)
     false Shape.elu init_stride nfeatures mode g) (only parsing).

(** The same in a fresh process. *)
Abbreviation shape_net aff depth upsample use_bn init_stride nfeatures mode :=
  (shape_net_from initial_globals aff depth upsample use_bn init_stride
     nfeatures mode) (only parsing).

(** The shape at scale [k] of a network of depth [depth], with [ch]
    channels, when the bridge sees the extents [(d, h, w)]. *)
Definition level_shape (depth n d h w k ch : Z) : list Z :=
  let q := 2 ^ (depth - k) in [n; ch; q * d; q * h; q * w].

Definition shape_run (aff depth : Z) (upsample : string) (use_bn : bool)
    (init_stride : pyval) (nfeatures : list Z) (mode : string) (x : list Z)
  : result (list Z) :=
  let* net := fst (shape_net aff depth upsample use_bn init_stride nfeatures
                     mode) in
  RSUNet_forward (E := shape_engine) net x.

(** The shape at scale [k] on the way down, when the embedding leaves the
    extents [(D, H, W)]: each pooling halves an extent, rounding down. *)
Definition pooled_shape (n D H W k ch : Z) : list Z :=
  [n; ch; D / 2 ^ k; H / 2 ^ k; W / 2 ^ k].

(** The extents [(D, H, W)] a network of depth [depth] can work on at its
    scale 0: positive multiples of [2^depth], with more than one value per
    channel left at the bridge for a batch of [n]. *)
Definition accepted (depth n D H W : Z) : Prop :=
  0 < D /\ 0 < H /\ 0 < W /\
  (2 ^ depth | D) /\ (2 ^ depth | H) /\ (2 ^ depth | W) /\
  1 < n * (D / 2 ^ depth) * (H / 2 ^ depth) * (W / 2 ^ depth).

(** On the way up, scale [k] has got back the extents it had on the way
    down: they are [2^(depth-k)] times those of the bridge, which are
    positive and leave more than one value per channel. *)
Definition restored (depth n D H W k : Z) : Prop :=
  D / 2 ^ k = 2 ^ (depth - k) * (D / 2 ^ depth) /\
  H / 2 ^ k = 2 ^ (depth - k) * (H / 2 ^ depth) /\
  W / 2 ^ k = 2 ^ (depth - k) * (W / 2 ^ depth) /\
  0 < D / 2 ^ depth /\ 0 < H / 2 ^ depth /\ 0 < W / 2 ^ depth /\
  1 < n * (D / 2 ^ depth) * (H / 2 ^ depth) * (W / 2 ^ depth).

(** * Properties *)

(** ** ShapeUtil *)

Lemma pad_size_1 : pad_size (PInt 1) "same" = Ok [0; 0; 0].
Proof. reflexivity. Qed.

(** ** Constructors in closed form *)

Section Constructors.

Context {E : Engine}.

Lemma Conv_init_eq cin cout ks st pad (bias : bool) g :
  Conv_init cin cout ks st pad bias g =
  (if bias then Err (AttributeError "fill_")
   else Ok (mk_Conv (backend_of (MODE g)) cin cout ks st pad), g).
Proof.
  unfold Conv_init, bindM, get_MODE, liftM, retM, backend_of, mk_Conv.
  destruct bias, (String.eqb (MODE g) "tvm"); reflexivity.
Qed.

Lemma ConvT_init_eq cin cout ks st pad out_pad g :
  ConvT_init cin cout ks st pad out_pad false g =
  (Ok (mk_ConvT cin cout ks st pad out_pad), g).
Proof. reflexivity. Qed.

Lemma ConvMod_init_eq cin cout ks act residual (use_bn : bool) momentum
    track g :
  ConvMod_init cin cout ks act residual use_bn momentum track g =
  match pad_size (_triple ks) "same" with
  | Err e => (Err e, g)
  | Ok pad =>
    if use_bn then
      (Ok (mk_ConvMod (backend_of (MODE g)) cin cout (_triple ks) pad act
             residual momentum track), g)
    else (Err (AttributeError "fill_"), g)
  end.
Proof.
  unfold ConvMod_init, bindM, liftM.
  destruct (pad_size (_triple ks) "same") as [pad|e]; [|reflexivity].
  rewrite !Conv_init_eq. destruct use_bn; reflexivity.
Qed.

Lemma UpsampleMod_init_eq cin cout up mode act use_bn momentum track g :
  UpsampleMod_init cin cout up mode act use_bn momentum track g =
  (match mk_UpsampleMod (backend_of (MODE g)) cin cout up mode act use_bn
           momentum track with
   | Some u => Ok u
   | None => Err (AssertionError "unknown upsampling mode")
   end, g).
Proof.
  unfold UpsampleMod_init, mk_UpsampleMod, bindM, liftM, retM.
  destruct (String.eqb mode "bilinear").
  { rewrite Conv_init_eq. reflexivity. }
  destruct (String.eqb mode "nearest").
  { rewrite Conv_init_eq. reflexivity. }
  destruct (String.eqb mode "transpose"); reflexivity.
Qed.

Lemma EmbeddingMod_init_eq cin cout ks act stride g :
  EmbeddingMod_init cin cout ks act stride g =
  match pad_size ks "same" with
  | Err e => (Err e, g)
  | Ok pad =>
    (Ok (mk_EmbeddingMod (backend_of (MODE g)) cin cout ks pad act stride), g)
  end.
Proof.
  unfold EmbeddingMod_init, bindM, liftM.
  destruct (pad_size ks "same"); [|reflexivity].
  rewrite Conv_init_eq. reflexivity.
Qed.

Lemma EmbeddingModUP_init_eq cin cout ks act stride g :
  EmbeddingModUP_init cin cout ks act stride g =
  match pad_size ks "same" with
  | Err e => (Err e, g)
  | Ok pad => (Ok (mk_EmbeddingModUP cin cout ks pad act stride), g)
  end.
Proof.
  unfold EmbeddingModUP_init, bindM, liftM.
  destruct (pad_size ks "same"); reflexivity.
Qed.

Lemma OutputMod_init_eq cin cout g :
  OutputMod_init cin cout (PInt 1) g =
  (Ok (mk_OutputMod (backend_of (MODE g)) cin cout), g).
Proof.
  unfold OutputMod_init, bindM, liftM. rewrite pad_size_1, Conv_init_eq.
  reflexivity.
Qed.

End Constructors.

(** ** Reasoning rules for the two monads *)

Lemma okM_bind {A B : Type} (m : M A) (k : A -> M B) g Q :
  okM m g (fun a g1 => okM (k a) g1 Q) -> okM (bindM m k) g Q.
Proof.
  unfold okM, bindM. intros H b g' Hb.
  destruct (m g) as [[a|e] g1] eqn:Hm; [|discriminate].
  exact (H a g1 eq_refl b g' Hb).
Qed.

Lemma okM_ret {A : Type} (a : A) g (Q : A -> globals -> Prop) :
  Q a g -> okM (retM a) g Q.
Proof. unfold okM, retM. intros H ? ? [= <- <-]. exact H. Qed.

Lemma okM_lift {A : Type} (r : result A) g (Q : A -> globals -> Prop) :
  (forall a, r = Ok a -> Q a g) -> okM (liftM r) g Q.
Proof. unfold okM, liftM. intros H ? ? [= -> <-]. auto. Qed.

Lemma okM_foldMM_seq {A : Type} (f : A -> Z -> M A)
    (I : nat -> A -> globals -> Prop) (n a : nat) s g :
  I a s g ->
  (forall k s g, (a <= k < a + n)%nat -> I k s g ->
     okM (f s (Z.of_nat k)) g (I (S k))) ->
  okM (foldMM f (map Z.of_nat (seq a n)) s) g (I (a + n)%nat).
Proof.
  revert a s g. induction n as [|n IH]; intros a s g H0 Hstep; simpl.
  - apply okM_ret. by rewrite Nat.add_0_r.
  - apply okM_bind. intros s1 g1 Hs1.
    replace (a + S n)%nat with (S a + n)%nat by lia.
    apply IH.
    + apply (Hstep a s g); [lia|exact H0|exact Hs1].
    + intros k s' g' Hk. apply Hstep. lia.
Qed.

Lemma okM_foldMM_range {A : Type} (f : A -> Z -> M A)
    (I : nat -> A -> globals -> Prop) (d : Z) s g :
  I 0%nat s g ->
  (forall k s g, (k < Z.to_nat d)%nat -> I k s g ->
     okM (f s (Z.of_nat k)) g (I (S k))) ->
  okM (foldMM f (range d) s) g (I (Z.to_nat d)).
Proof.
  intros H0 Hstep. unfold range.
  apply (okM_foldMM_seq f I (Z.to_nat d) 0); [exact H0|].
  intros k s' g' Hk. apply Hstep. lia.
Qed.

Lemma rev_range_S (n : nat) :
  rev (map Z.of_nat (seq 0 (S n))) =
  Z.of_nat n :: rev (map Z.of_nat (seq 0 n)).
Proof. rewrite seq_S, map_app, rev_app_distr. reflexivity. Qed.

Lemma okM_foldMM_reversed_range {A : Type} (f : A -> Z -> M A)
    (I : nat -> A -> globals -> Prop) (d : Z) s g :
  I (Z.to_nat d) s g ->
  (forall k s g, (k < Z.to_nat d)%nat -> I (S k) s g ->
     okM (f s (Z.of_nat k)) g (I k)) ->
  okM (foldMM f (reversed_range d) s) g (I 0%nat).
Proof.
  unfold reversed_range, range. generalize (Z.to_nat d) as n.
  intros n. revert s g. induction n as [|n IH]; intros s g H0 Hstep.
  - simpl. apply okM_ret. exact H0.
  - rewrite rev_range_S. simpl. apply okM_bind. intros s1 g1 Hs1.
    apply IH.
    + apply (Hstep n s g); [lia|exact H0|exact Hs1].
    + intros k s' g' Hk. apply Hstep. lia.
Qed.

Lemma outcome_bind {A B : Type} (r : result A) (k : A -> result B) Q P :
  outcome r (fun a => outcome (k a) Q P) P -> outcome (bind r k) Q P.
Proof. destruct r; simpl; auto. Qed.

Lemma outcome_mono {A : Type} (r : result A) (Q Q' : A -> Prop)
    (P P' : exn -> Prop) :
  outcome r Q P -> (forall a, Q a -> Q' a) -> (forall e, P e -> P' e) ->
  outcome r Q' P'.
Proof. destruct r; simpl; auto. Qed.

Lemma outcome_foldM_seq {A : Type} (f : A -> Z -> result A)
    (I : nat -> A -> Prop) (P : exn -> Prop) (n a : nat) s :
  I a s ->
  (forall k s, (a <= k < a + n)%nat -> I k s ->
     outcome (f s (Z.of_nat k)) (I (S k)) P) ->
  outcome (foldM f (map Z.of_nat (seq a n)) s) (I (a + n)%nat) P.
Proof.
  revert a s. induction n as [|n IH]; intros a s H0 Hstep; simpl.
  - by rewrite Nat.add_0_r.
  - apply outcome_bind.
    eapply outcome_mono; [apply (Hstep a s); [lia|exact H0]| |auto].
    intros s1 Hs1. replace (a + S n)%nat with (S a + n)%nat by lia.
    apply IH; [exact Hs1|]. intros k s' Hk. apply Hstep. lia.
Qed.

Lemma outcome_foldM_range {A : Type} (f : A -> Z -> result A)
    (I : nat -> A -> Prop) (P : exn -> Prop) (d : Z) s :
  I 0%nat s ->
  (forall k s, (k < Z.to_nat d)%nat -> I k s ->
     outcome (f s (Z.of_nat k)) (I (S k)) P) ->
  outcome (foldM f (range d) s) (I (Z.to_nat d)) P.
Proof.
  intros H0 Hstep. unfold range.
  apply (outcome_foldM_seq f I P (Z.to_nat d) 0); [exact H0|].
  intros k s' Hk. apply Hstep. lia.
Qed.

Lemma outcome_foldM_reversed_range {A : Type} (f : A -> Z -> result A)
    (I : nat -> A -> Prop) (P : exn -> Prop) (d : Z) s :
  I (Z.to_nat d) s ->
  (forall k s, (k < Z.to_nat d)%nat -> I (S k) s ->
     outcome (f s (Z.of_nat k)) (I k) P) ->
  outcome (foldM f (reversed_range d) s) (I 0%nat) P.
Proof.
  unfold reversed_range, range. generalize (Z.to_nat d) as n.
  intros n. revert s. induction n as [|n IH]; intros s H0 Hstep.
  - exact H0.
  - rewrite rev_range_S. simpl. apply outcome_bind.
    eapply outcome_mono; [apply (Hstep n s); [lia|exact H0]| |auto].
    intros s1 Hs1. apply IH; [exact Hs1|].
    intros k s' Hk. apply Hstep. lia.
Qed.

Lemma okM_mono {A : Type} (m : M A) g (Q Q' : A -> globals -> Prop) :
  okM m g Q -> (forall a g', Q a g' -> Q' a g') -> okM m g Q'.
Proof. unfold okM. auto. Qed.

(** ** Attribute names *)

Lemma format_inj prefix d1 d2 : format prefix d1 = format prefix d2 -> d1 = d2.
Proof.
  unfold format. intros H. apply (inj (String.app prefix)) in H.
  exact (inj pretty _ _ H).
Qed.

Lemma slot_name_inj s1 s2 : slot_name s1 = slot_name s2 -> s1 = s2.
Proof.
  destruct s1, s2; simpl; unfold format; cbn [String.app]; intros H;
    try discriminate H; try reflexivity;
    f_equal; injection H as H; exact (inj pretty _ _ H).
Qed.

Section Registry.

Context {E : Engine}.

Lemma count_add_fresh (p : module -> bool) self name m :
  _modules self !! name = None ->
  count_modules p (add_module self name m) =
  (count_modules p self + if p m then 1 else 0)%nat.
Proof.
  intros Hfresh. unfold count_modules, add_module. simpl.
  destruct (p m) eqn:Hp.
  - rewrite map_filter_insert_True by exact Hp.
    rewrite map_size_insert_None; [lia|].
    apply map_lookup_filter_None. left. exact Hfresh.
  - rewrite map_filter_insert_False by (simpl; congruence).
    rewrite delete_id by exact Hfresh. lia.
Qed.

(** Registering one more module under a fresh name moves the construction
    to the next phase. *)
Lemma registered_add c ph ph' self s0 m :
  registered c ph self ->
  expected c ph s0 = None ->
  expected c ph' s0 = Some m ->
  (forall s, s <> s0 -> expected c ph' s = expected c ph s) ->
  Z.to_nat (ph_pool ph') =
    (Z.to_nat (ph_pool ph) + if is_pool m then 1 else 0)%nat ->
  Z.to_nat (rounds c - ph_upsample ph') =
    (Z.to_nat (rounds c - ph_upsample ph) + if is_upsample m then 1 else 0)%nat ->
  registered c ph' (add_module self (slot_name s0) m).
Proof.
  intros [H1 H2 H3 H4 H5 Hl Hc Hp Hu] Hnone Hsome Hother Hpool Hup.
  assert (Hfresh : _modules self !! slot_name s0 = None)
    by (rewrite Hl; exact Hnone).
  split; simpl; try assumption.
  - intros s. destruct (decide (slot_name s0 = slot_name s)) as [Heq|Hne].
    + apply slot_name_inj in Heq as <-.
      rewrite lookup_insert_eq. symmetry. exact Hsome.
    + rewrite lookup_insert_ne by exact Hne. rewrite Hl. symmetry.
      apply Hother. intros ->. apply Hne. reflexivity.
  - intros name m' Hname.
    destruct (decide (slot_name s0 = name)) as [<-|Hne]; [eauto|].
    rewrite lookup_insert_ne in Hname by exact Hne. exact (Hc _ _ Hname).
  - rewrite count_add_fresh by exact Hfresh. rewrite Hp. symmetry. exact Hpool.
  - rewrite count_add_fresh by exact Hfresh. rewrite Hu. symmetry. exact Hup.
Qed.

End Registry.

(** ** Construction: what [RSUNet.__init__] registers *)

Lemma py_index_sizes d ks :
  py_index sizes d = Ok ks -> ks = PSeq [3; 3; 3] /\ -5 <= d < 5.
Proof.
  unfold py_index. change (py_len sizes) with 5.
  set (j := if d <? 0 then d + 5 else d).
  destruct ((0 <=? j) && (j <? 5)) eqn:Hj; [|discriminate].
  apply andb_true_iff in Hj as [H0 H5].
  apply Z.leb_le in H0. apply Z.ltb_lt in H5.
  assert (Hd : -5 <= d < 5) by (subst j; destruct (d <? 0) eqn:?; lia).
  assert (Hn : (Z.to_nat j < 5)%nat) by lia.
  destruct (Z.to_nat j) as [|[|[|[|[|n]]]]]; simpl;
    try (intros [= <-]; split; [reflexivity|exact Hd]); lia.
Qed.

Lemma chan_eq {E : Engine} (c : config) d fs :
  py_index (cfg_nfeatures c) d = Ok fs -> chan c d = fs.
Proof. unfold chan. intros ->. reflexivity. Qed.

Section Construction.

Context {E : Engine}.

Lemma contracting_step_eq nf track act self cin d g :
  contracting_step nf track act (self, cin) d g =
  match py_index nf d with
  | Err e => (Err e, g)
  | Ok fs =>
    match py_index sizes d with
    | Err e => (Err e, g)
    | Ok ks =>
      match pad_size (_triple ks) "same" with
      | Err e => (Err e, g)
      | Ok pad =>
        if net_use_bn self then
          (Ok (add_module
                 (add_module self (format "convmod" d)
                    (MConvMod (mk_ConvMod (backend_of (MODE g)) cin fs
                                 (_triple ks) pad act (net_residual self)
                                 (net_momentum self) track)))
                 (format "maxpool" (d + 1)) (MMaxPool3d (PInt 2)), fs), g)
        else (Err (AttributeError "fill_"), g)
      end
    end
  end.
Proof.
  unfold contracting_step, add_conv_mod, add_max_pool, bindM, liftM, retM.
  destruct (py_index nf d) as [fs|e]; [|reflexivity].
  destruct (py_index sizes d) as [ks|e]; [|reflexivity].
  rewrite ConvMod_init_eq.
  destruct (pad_size (_triple ks) "same") as [pad|e]; [|reflexivity].
  destruct (net_use_bn self); reflexivity.
Qed.

Lemma expanding_step_eq nf track act self cin d g :
  expanding_step nf track act (self, cin) d g =
  match py_index nf d with
  | Err e => (Err e, g)
  | Ok fs =>
    match py_index sizes d with
    | Err e => (Err e, g)
    | Ok ks =>
      match mk_UpsampleMod (backend_of (MODE g)) cin fs (PInt 2)
              (net_upsample self) act (net_use_bn self) (net_momentum self)
              track with
      | None => (Err (AssertionError "unknown upsampling mode"), g)
      | Some u =>
        match pad_size (_triple ks) "same" with
        | Err e => (Err e, g)
        | Ok pad =>
          if net_use_bn self then
            (Ok (add_module
                   (add_module self (format "upsample" d) (MUpsampleMod u))
                   (format "dconvmod" d)
                   (MConvMod (mk_ConvMod (backend_of (MODE g)) fs fs
                                (_triple ks) pad act (net_residual self)
                                (net_momentum self) track)), fs), g)
          else (Err (AttributeError "fill_"), g)
        end
      end
    end
  end.
Proof.
  unfold expanding_step, add_upsample_mod, add_dconv_mod, bindM, liftM, retM.
  destruct (py_index nf d) as [fs|e]; [|reflexivity].
  destruct (py_index sizes d) as [ks|e]; [|reflexivity].
  rewrite UpsampleMod_init_eq.
  destruct (mk_UpsampleMod _ _ _ _ _ _ _ _ _) as [u|]; [|reflexivity].
  rewrite ConvMod_init_eq. simpl.
  destruct (pad_size (_triple ks) "same") as [pad|e]; [|reflexivity].
  destruct (net_use_bn self); reflexivity.
Qed.

End Construction.

Ltac other_slots :=
  let s := fresh "s" in
  let Hs := fresh "Hs" in
  intros s Hs; destruct s; simpl; try reflexivity;
  match goal with
  | d : Z |- _ =>
    match type of Hs with
    | _ ?d' <> _ ?k =>
      assert (d' <> k) by (intros ->; apply Hs; reflexivity)
    end
  | _ => idtac
  end;
  try (exfalso; apply Hs; reflexivity);
  repeat case_bool_decide; simpl; try reflexivity; try lia.

Section Rounds.

Context {E : Engine}.

Variable c : config.

Lemma chan_in_succ k : 0 <= k -> chan_in c (k + 1) = chan c k.
Proof.
  intros Hk. unfold chan_in.
  destruct (k + 1 =? 0) eqn:H0; [apply Z.eqb_eq in H0; lia|].
  f_equal. lia.
Qed.

Lemma contracting_round k self g :
  MODE g = cfg_mode c ->
  registered c (down_phase c k k) self ->
  0 <= k < rounds c ->
  okM (contracting_step (cfg_nfeatures c) (cfg_track c) (cfg_activation c)
         (self, chan_in c k) k) g
    (fun st g' =>
       g' = g /\ registered c (down_phase c (k + 1) (k + 1)) (fst st) /\
       snd st = chan_in c (k + 1) /\ cfg_use_bn c = true).
Proof.
  intros Hg Hreg Hk [self' cin'] g' Hrun.
  rewrite contracting_step_eq in Hrun.
  destruct (py_index (cfg_nfeatures c) k) as [fs|] eqn:Hfs; [|discriminate].
  destruct (py_index sizes k) as [ks|] eqn:Hks; [|discriminate].
  apply py_index_sizes in Hks as [-> _].
  change (pad_size (_triple (PSeq [3; 3; 3])) "same") with (Ok [1; 1; 1])
    in Hrun.
  destruct (net_use_bn self) eqn:Hbn; [|discriminate].
  injection Hrun as <- <- <-. simpl.
  rewrite Hg, (reg_residual _ _ _ Hreg), (reg_momentum _ _ _ Hreg).
  apply chan_eq in Hfs. subst fs.
  split; [reflexivity|]. split; [|split].
  - apply (registered_add c (down_phase c (k + 1) k) _ _ (SMaxpool (k + 1))).
    + apply (registered_add c (down_phase c k k) _ _ (SConvmod k));
        [exact Hreg| | | | |]; simpl.
      * repeat case_bool_decide; simpl; try reflexivity; lia.
      * case_bool_decide; [reflexivity|lia].
      * other_slots.
      * lia.
      * lia.
    + simpl. case_bool_decide; [lia|reflexivity].
    + simpl. case_bool_decide; [reflexivity|lia].
    + other_slots.
    + simpl. lia.
    + simpl. lia.
  - symmetry. apply chan_in_succ. lia.
  - rewrite <- (reg_use_bn _ _ _ Hreg). exact Hbn.
Qed.

Lemma mk_UpsampleMod_known b cin cout up mode act use_bn momentum track u :
  mk_UpsampleMod b cin cout up mode act use_bn momentum track = Some u ->
  upsample_known mode = true.
Proof.
  unfold mk_UpsampleMod, upsample_known.
  destruct (String.eqb mode "bilinear"); [reflexivity|].
  destruct (String.eqb mode "nearest"); [reflexivity|].
  destruct (String.eqb mode "transpose"); [reflexivity|discriminate].
Qed.

Lemma expanding_round k self g :
  MODE g = cfg_mode c ->
  registered c (up_phase c (k + 1) (k + 1) false) self ->
  0 <= k < rounds c ->
  okM (expanding_step (cfg_nfeatures c) (cfg_track c) (cfg_activation c)
         (self, chan c (k + 1)) k) g
    (fun st g' =>
       g' = g /\ registered c (up_phase c k k false) (fst st) /\
       snd st = chan c k /\ upsample_known (cfg_upsample c) = true).
Proof.
  intros Hg Hreg Hk [self' cin'] g' Hrun.
  rewrite expanding_step_eq in Hrun.
  destruct (py_index (cfg_nfeatures c) k) as [fs|] eqn:Hfs; [|discriminate].
  destruct (py_index sizes k) as [ks|] eqn:Hks; [|discriminate].
  apply py_index_sizes in Hks as [-> _].
  rewrite Hg, (reg_residual _ _ _ Hreg), (reg_momentum _ _ _ Hreg),
    (reg_upsample _ _ _ Hreg), (reg_use_bn _ _ _ Hreg) in Hrun.
  apply chan_eq in Hfs. subst fs.
  destruct (mk_UpsampleMod _ _ _ _ _ _ _ _ _) as [u|] eqn:Hu; [|discriminate].
  change (pad_size (_triple (PSeq [3; 3; 3])) "same") with (Ok [1; 1; 1])
    in Hrun.
  destruct (cfg_use_bn c) eqn:Hbn; [|discriminate].
  injection Hrun as <- <- <-. simpl.
  split; [reflexivity|]. split; [|split].
  - apply (registered_add c (up_phase c k (k + 1) false) _ _ (SDconvmod k)).
    + apply (registered_add c (up_phase c (k + 1) (k + 1) false) _ _
               (SUpsample k)); [exact Hreg| | | | |]; simpl.
      * case_bool_decide; [lia|reflexivity].
      * case_bool_decide; [|lia]. rewrite Hbn, Hu. reflexivity.
      * other_slots.
      * lia.
      * lia.
    + simpl. case_bool_decide; [lia|reflexivity].
    + simpl. case_bool_decide; [reflexivity|lia].
    + other_slots.
    + simpl. lia.
    + simpl. lia.
  - reflexivity.
  - exact (mk_UpsampleMod_known _ _ _ _ _ _ _ _ _ _ Hu).
Qed.

Lemma bridge_round self g fs ks :
  MODE g = cfg_mode c ->
  registered c (down_phase c (rounds c) (rounds c)) self ->
  py_index (cfg_nfeatures c) (cfg_depth c) = Ok fs ->
  py_index sizes (cfg_depth c) = Ok ks ->
  okM (add_conv_mod self (cfg_depth c) (chan_in c (rounds c)) fs ks
         (cfg_track c) (cfg_activation c)) g
    (fun self' g' =>
       g' = g /\ registered c (up_phase c (rounds c) (rounds c) false) self' /\
       fs = chan c (cfg_depth c) /\ cfg_use_bn c = true).
Proof.
  intros Hg Hreg Hfs Hks self' g' Hrun.
  unfold add_conv_mod, bindM, retM in Hrun. rewrite ConvMod_init_eq in Hrun.
  apply py_index_sizes in Hks as [-> _].
  change (pad_size (_triple (PSeq [3; 3; 3])) "same") with (Ok [1; 1; 1])
    in Hrun.
  destruct (net_use_bn self) eqn:Hbn; [|discriminate].
  injection Hrun as <- <-. simpl.
  rewrite Hg, (reg_residual _ _ _ Hreg), (reg_momentum _ _ _ Hreg).
  apply chan_eq in Hfs. subst fs.
  split; [reflexivity|]. split; [|split].
  - apply (registered_add c (down_phase c (rounds c) (rounds c)) _ _
             (SConvmod (cfg_depth c))); [exact Hreg| | | | |]; simpl.
    + unfold rounds. case_bool_decide; [lia|reflexivity].
    + unfold rounds. repeat case_bool_decide; simpl; try reflexivity; lia.
    + other_slots.
    + lia.
    + lia.
  - reflexivity.
  - rewrite <- (reg_use_bn _ _ _ Hreg). exact Hbn.
Qed.

End Rounds.

Section Build.

Context {E : Engine}.

Variable c : config.

Lemma rounds_nat : Z.of_nat (Z.to_nat (cfg_depth c)) = rounds c.
Proof. unfold rounds. lia. Qed.

Lemma count_empty (p : module -> bool) :
  size (filter (fun kv : string * module => p (snd kv) = true)
          (∅ : gmap string module)) = 0%nat.
Proof. rewrite map_filter_empty. apply map_size_empty. Qed.

Lemma registered_embed_in self :
  net_residual self = cfg_residual c ->
  net_upsample self = cfg_upsample c ->
  net_use_bn self = cfg_use_bn c ->
  net_momentum self = cfg_momentum c ->
  net_depth self = cfg_depth c ->
  _modules self = ∅ ->
  registered c (down_phase c 0 0)
    (add_module self "embed_in"
       (MEmbeddingMod
          (mk_EmbeddingMod (backend_of (cfg_mode c)) 1 embed_nin embed_ks
             [0; 2; 2] (cfg_activation c) (cfg_init_stride c)))).
Proof.
  intros H1 H2 H3 H4 H5 Hempty.
  assert (Hfresh : _modules self !! "embed_in" = None)
    by (rewrite Hempty; apply lookup_empty).
  split; simpl; try assumption.
  - intros s. rewrite Hempty.
    destruct (decide ("embed_in" = slot_name s)) as [Heq|Hne].
    + apply (slot_name_inj SEmbedIn) in Heq as <-.
      simpl. apply lookup_insert_eq.
    + rewrite lookup_insert_ne by exact Hne. rewrite lookup_empty.
      destruct s; simpl; try reflexivity;
        try (case_bool_decide; [lia|reflexivity]).
      exfalso. apply Hne. reflexivity.
  - intros name m' Hname. rewrite Hempty in Hname.
    destruct (decide ("embed_in" = name)) as [<-|Hne]; [by exists SEmbedIn|].
    rewrite lookup_insert_ne, lookup_empty in Hname by exact Hne.
    discriminate.
  - rewrite (count_add_fresh is_pool self) by exact Hfresh.
    unfold count_modules. rewrite Hempty, count_empty. reflexivity.
  - rewrite (count_add_fresh is_upsample self) by exact Hfresh.
    unfold count_modules. rewrite Hempty, count_empty. simpl. lia.
Qed.

(** What [RSUNet.__init__] returns, when it returns: the global [MODE] is
    the [mode] argument, and the network holds exactly the modules of
    [expected c (finished c)]. *)
Theorem build_ok g :
  okM (build c) g
    (fun net g' => g' = {| MODE := cfg_mode c |} /\ built c net).
Proof.
  unfold build, RSUNet_init.
  apply okM_bind. intros [] g1 Hset. injection Hset as <-.
  apply okM_bind, okM_lift. intros [] Hassert.
  assert (Hdepth : cfg_depth c < py_len (cfg_nfeatures c)).
  { unfold assert in Hassert.
    destruct (cfg_depth c <? py_len (cfg_nfeatures c)) eqn:Hlt;
      [apply Z.ltb_lt, Hlt|discriminate]. }
  apply okM_bind. intros embed_in g2 Hemb.
  rewrite EmbeddingMod_init_eq in Hemb.
  change (pad_size embed_ks "same") with (Ok [0; 2; 2]) in Hemb.
  injection Hemb as <- <-. simpl MODE.
  set (G := {| MODE := cfg_mode c |}).
  (* Contracting pathway. *)
  apply okM_bind.
  eapply okM_mono.
  { apply (okM_foldMM_range _
             (fun k st g' =>
                g' = G /\
                registered c (down_phase c (Z.of_nat k) (Z.of_nat k)) (fst st) /\
                snd st = chan_in c (Z.of_nat k) /\
                ((0 < k)%nat -> cfg_use_bn c = true))).
    - split; [reflexivity|]. split; [|split; [reflexivity|lia]].
      simpl. apply registered_embed_in; reflexivity.
    - intros k [self cin] g' Hk (-> & Hreg & Hcin & _). simpl in Hreg, Hcin.
      subst cin. eapply okM_mono.
      + apply (contracting_round c (Z.of_nat k) self G);
          [reflexivity|exact Hreg|unfold rounds; lia].
      + intros [self' cin'] g'' (-> & Hreg' & Hcin' & Hbn).
        rewrite Nat2Z.inj_succ, <- Z.add_1_r. auto. }
  intros [self cin] g3 (-> & Hreg & Hcin & _). simpl in Hreg, Hcin.
  rewrite rounds_nat in Hreg, Hcin. subst cin.
  (* Bridge. *)
  apply okM_bind, okM_lift. intros fs Hfs.
  apply okM_bind, okM_lift. intros ks Hks.
  apply okM_bind. eapply okM_mono.
  { apply (bridge_round c self G fs ks); [reflexivity|assumption..]. }
  intros self1 g4 (-> & Hreg1 & -> & Hbn).
  (* Expanding pathway. *)
  apply okM_bind. eapply okM_mono.
  { apply (okM_foldMM_reversed_range _
             (fun k st g' =>
                g' = G /\
                registered c (up_phase c (Z.of_nat k) (Z.of_nat k) false)
                  (fst st) /\
                snd st = (if Z.of_nat k <? rounds c then chan c (Z.of_nat k)
                          else chan c (cfg_depth c)) /\
                (Z.of_nat k < rounds c ->
                 upsample_known (cfg_upsample c) = true))).
    - rewrite rounds_nat. rewrite Z.ltb_irrefl. simpl.
      split; [reflexivity|]. split; [exact Hreg1|]. split; [reflexivity|lia].
    - intros k [self' cin] g' Hk (-> & Hreg' & Hcin & _).
      simpl in Hreg', Hcin.
      rewrite Nat2Z.inj_succ, <- Z.add_1_r in Hreg', Hcin.
      assert (Hcin' : cin = chan c (Z.of_nat k + 1)).
      { rewrite Hcin. destruct (Z.of_nat k + 1 <? rounds c) eqn:Hlt;
          [reflexivity|].
        apply Z.ltb_ge in Hlt. f_equal. unfold rounds in *. lia. }
      clear Hcin. subst cin. eapply okM_mono.
      + apply (expanding_round c (Z.of_nat k) self' G);
          [reflexivity|exact Hreg'|unfold rounds; lia].
      + intros [self'' cin'] g'' (-> & Hreg'' & Hcin'' & Hup).
        simpl in *. subst cin'.
        assert (Hlt : (Z.of_nat k <? rounds c) = true)
          by (apply Z.ltb_lt; unfold rounds; lia).
        rewrite Hlt. auto. }
  intros [self2 cin] g5 (-> & Hreg2 & Hcin & Hup). simpl in Hreg2, Hcin, Hup.
  change (Z.of_nat 0) with 0 in Hreg2, Hcin, Hup.
  assert (Hcin' : cin = if 0 <? cfg_depth c then chan c 0
                        else chan c (cfg_depth c)).
  { rewrite Hcin. unfold rounds.
    destruct (0 <? cfg_depth c) eqn:H0;
      [apply Z.ltb_lt in H0|apply Z.ltb_ge in H0].
    - replace (0 <? Z.max 0 (cfg_depth c)) with true
        by (symmetry; apply Z.ltb_lt; lia). reflexivity.
    - replace (0 <? Z.max 0 (cfg_depth c)) with false
        by (symmetry; apply Z.ltb_ge; lia). reflexivity. }
  clear Hcin. subst cin.
  (* Output feature embedding, output. *)
  assert (Hout : forall self3,
    registered c (up_phase c 0 0 true) self3 ->
    okM (let! output := OutputMod_init embed_nout (cfg_aff c) (PInt 1) in
         retM (add_module self3 "output" (MOutputMod output))) G
      (fun net g' => g' = G /\ built c net)).
  { intros self3 Hreg3. apply okM_bind. intros o g6 Ho.
    rewrite OutputMod_init_eq in Ho. injection Ho as <- <-.
    apply okM_ret. split; [reflexivity|].
    split; [|exact Hbn|exact Hdepth|].
    - apply (registered_add c (up_phase c 0 0 true) _ _ SOutput);
        [exact Hreg3|reflexivity|reflexivity| |simpl; lia|simpl; lia].
      other_slots.
    - intros Hpos. apply Hup. unfold rounds. lia. }
  apply okM_bind.
  assert (Heo : registered c (up_phase c 0 0 true)
                  (add_module self2 "embed_out" (the_embed_out c))).
  { apply (registered_add c (up_phase c 0 0 false) _ _ SEmbedOut);
      [exact Hreg2|reflexivity|reflexivity| | |].
    - other_slots.
    - unfold the_embed_out. simpl.
      destruct (py_eq_int (cfg_init_stride c) 1); simpl; lia.
    - unfold the_embed_out. simpl.
      destruct (py_eq_int (cfg_init_stride c) 1); simpl; lia. }
  unfold the_embed_out in Heo.
  destruct (py_eq_int (cfg_init_stride c) 1) eqn:Hstride.
  - apply okM_bind. intros m g6 Hm. rewrite EmbeddingMod_init_eq in Hm.
    change (pad_size embed_ks "same") with (Ok [0; 2; 2]) in Hm.
    injection Hm as <- <-. apply okM_ret. apply Hout. exact Heo.
  - apply okM_bind. intros m g6 Hm. rewrite EmbeddingModUP_init_eq in Hm.
    change (pad_size embed_ks "same") with (Ok [0; 2; 2]) in Hm.
    injection Hm as <- <-. apply okM_ret. apply Hout. exact Heo.
Qed.

End Build.

(** ** The forward pass of a constructed network *)

Lemma py_index_nat {A : Type} (l : list A) (k : nat) a :
  l !! k = Some a -> py_index l (Z.of_nat k) = Ok a.
Proof.
  intros Hk. assert (Hlt := lookup_lt_Some _ _ _ Hk).
  unfold py_index, py_len.
  destruct (Z.of_nat k <? 0) eqn:Hneg; [apply Z.ltb_lt in Hneg; lia|].
  replace ((0 <=? Z.of_nat k) && (Z.of_nat k <? Z.of_nat (length l)))
    with true by (symmetry; apply andb_true_iff; split;
                  [apply Z.leb_le|apply Z.ltb_lt]; lia).
  rewrite Nat2Z.id, Hk. reflexivity.
Qed.

Section Forward.

Context {E : Engine}.

Variable c : config.
Variable net : RSUNet.
Hypothesis Hbuilt : built c net.

Lemma getattr_built s m :
  expected c (finished c) s = Some m -> getattr net (slot_name s) = Ok m.
Proof.
  intros Hs. unfold getattr.
  rewrite (reg_lookup _ _ _ (built_registered _ _ Hbuilt)), Hs. reflexivity.
Qed.

Lemma getattr_convmod k :
  0 <= k < rounds c ->
  getattr net (format "convmod" k) =
  Ok (the_ConvMod c (chan_in c k) (chan c k)).
Proof.
  intros Hk. apply (getattr_built (SConvmod k)). simpl.
  case_bool_decide; [reflexivity|lia].
Qed.

Lemma getattr_maxpool k :
  0 <= k < rounds c ->
  getattr net (format "maxpool" (k + 1)) = Ok (MMaxPool3d (PInt 2)).
Proof.
  intros Hk. apply (getattr_built (SMaxpool (k + 1))). simpl.
  case_bool_decide; [reflexivity|lia].
Qed.

Lemma getattr_bridge :
  getattr net (format "convmod" (cfg_depth c)) =
  Ok (the_ConvMod c (chan_in c (rounds c)) (chan c (cfg_depth c))).
Proof.
  apply (getattr_built (SConvmod (cfg_depth c))). simpl. unfold rounds.
  repeat case_bool_decide; simpl; try reflexivity; lia.
Qed.

Lemma getattr_upsample k :
  0 <= k < rounds c ->
  exists u,
    mk_UpsampleMod (backend_of (cfg_mode c)) (chan c (k + 1)) (chan c k)
      (PInt 2) (cfg_upsample c) (cfg_activation c) true (cfg_momentum c)
      (cfg_track c) = Some u /\
    getattr net (format "upsample" k) = Ok (MUpsampleMod u).
Proof.
  intros Hk.
  assert (Hknown : upsample_known (cfg_upsample c) = true)
    by (apply (built_upsample _ _ Hbuilt); unfold rounds in Hk; lia).
  destruct (mk_UpsampleMod (backend_of (cfg_mode c)) (chan c (k + 1))
              (chan c k) (PInt 2) (cfg_upsample c) (cfg_activation c) true
              (cfg_momentum c) (cfg_track c)) as [u|] eqn:Hu.
  - exists u. split; [reflexivity|].
    apply (getattr_built (SUpsample k)). simpl.
    case_bool_decide; [|lia].
    rewrite (built_use_bn _ _ Hbuilt), Hu. reflexivity.
  - exfalso. unfold mk_UpsampleMod, upsample_known in *.
    destruct (String.eqb (cfg_upsample c) "bilinear"); [discriminate|].
    destruct (String.eqb (cfg_upsample c) "nearest"); [discriminate|].
    destruct (String.eqb (cfg_upsample c) "transpose"); discriminate.
Qed.

Lemma getattr_dconvmod k :
  0 <= k < rounds c ->
  getattr net (format "dconvmod" k) = Ok (the_ConvMod c (chan c k) (chan c k)).
Proof.
  intros Hk. apply (getattr_built (SDconvmod k)). simpl.
  case_bool_decide; [reflexivity|lia].
Qed.

Lemma getattr_embed_in :
  getattr net "embed_in" =
  Ok (MEmbeddingMod
        (mk_EmbeddingMod (backend_of (cfg_mode c)) 1 embed_nin embed_ks
           [0; 2; 2] (cfg_activation c) (cfg_init_stride c))).
Proof. apply (getattr_built SEmbedIn). reflexivity. Qed.

Lemma getattr_embed_out : getattr net "embed_out" = Ok (the_embed_out c).
Proof. apply (getattr_built SEmbedOut). reflexivity. Qed.

Lemma getattr_output :
  getattr net "output" =
  Ok (MOutputMod (mk_OutputMod (backend_of (cfg_mode c)) embed_nout
                    (cfg_aff c))).
Proof. apply (getattr_built SOutput). reflexivity. Qed.

(** The composition rule of [forward]: [X k] describes the tensor that
    enters contracting stage [k] (or the bridge), [K k] the skip recorded
    there, [Y k] the tensor that leaves expanding stage [k] (or the bridge),
    [U k] the output of [upsample k]; [P] the exceptions that may escape. *)
Variables (X K Y U : Z -> tensor -> Prop) (In Emb Out : tensor -> Prop).
Variable P : exn -> Prop.

Hypothesis embed_in_spec : forall x,
  In x ->
  outcome (call (MEmbeddingMod
                   (mk_EmbeddingMod (backend_of (cfg_mode c)) 1 embed_nin
                      embed_ks [0; 2; 2] (cfg_activation c)
                      (cfg_init_stride c))) [x]) (X 0) P.
Hypothesis convmod_spec : forall k x,
  0 <= k < rounds c -> X k x ->
  outcome (call (the_ConvMod c (chan_in c k) (chan c k)) [x]) (K k) P.
Hypothesis maxpool_spec : forall k s,
  0 <= k < rounds c -> K k s ->
  outcome (call (MMaxPool3d (PInt 2)) [s]) (X (k + 1)) P.
Hypothesis bridge_spec : forall x,
  X (rounds c) x ->
  outcome (call (the_ConvMod c (chan_in c (rounds c)) (chan c (cfg_depth c)))
             [x]) (Y (rounds c)) P.
Hypothesis upsample_spec : forall k u y s,
  0 <= k < rounds c ->
  mk_UpsampleMod (backend_of (cfg_mode c)) (chan c (k + 1)) (chan c k)
    (PInt 2) (cfg_upsample c) (cfg_activation c) true (cfg_momentum c)
    (cfg_track c) = Some u ->
  Y (k + 1) y -> K k s ->
  outcome (call (MUpsampleMod u) [y; s]) (U k) P.
Hypothesis dconvmod_spec : forall k u,
  0 <= k < rounds c -> U k u ->
  outcome (call (the_ConvMod c (chan c k) (chan c k)) [u]) (Y k) P.
Hypothesis embed_out_spec : forall y,
  Y 0 y -> outcome (call (the_embed_out c) [y]) Emb P.
Hypothesis output_spec : forall z,
  Emb z ->
  outcome (call (MOutputMod (mk_OutputMod (backend_of (cfg_mode c))
                               embed_nout (cfg_aff c))) [z]) Out P.

Lemma forward_down_rule k x skip :
  (k < Z.to_nat (cfg_depth c))%nat ->
  X (Z.of_nat k) x -> skips_ok K k skip ->
  outcome (forward_down net (x, skip) (Z.of_nat k))
    (fun st => X (Z.of_nat (S k)) (fst st) /\ skips_ok K (S k) (snd st)) P.
Proof.
  intros Hk HX [Hlen Hskip]. unfold forward_down.
  assert (Hk' : 0 <= Z.of_nat k < rounds c) by (unfold rounds; lia).
  rewrite (getattr_convmod _ Hk'), (getattr_maxpool _ Hk'). simpl bind.
  apply outcome_bind.
  eapply outcome_mono; [apply (convmod_spec _ _ Hk' HX)| |auto].
  intros s Hs. apply outcome_bind.
  eapply outcome_mono; [apply (maxpool_spec _ _ Hk' Hs)| |auto].
  intros x' Hx'. simpl. split.
  - rewrite Nat2Z.inj_succ, <- Z.add_1_r. exact Hx'.
  - split; [rewrite length_app; simpl; lia|].
    intros j s' Hj. destruct (decide (j < length skip)%nat) as [Hlt|Hge].
    + rewrite lookup_app_l in Hj by exact Hlt. exact (Hskip _ _ Hj).
    + rewrite lookup_app_r in Hj by lia.
      destruct (j - length skip)%nat as [|n] eqn:Hn; [|discriminate].
      injection Hj as <-. replace j with k by lia. exact Hs.
Qed.

Lemma forward_up_rule k y skip :
  (k < Z.to_nat (cfg_depth c))%nat ->
  skips_ok K (Z.to_nat (cfg_depth c)) skip ->
  Y (Z.of_nat (S k)) y ->
  outcome (forward_up net skip y (Z.of_nat k)) (Y (Z.of_nat k)) P.
Proof.
  intros Hk [Hlen Hskip] HY. unfold forward_up.
  assert (Hk' : 0 <= Z.of_nat k < rounds c) by (unfold rounds; lia).
  destruct (getattr_upsample _ Hk') as (u & Hu & ->).
  rewrite (getattr_dconvmod _ Hk'). simpl bind.
  destruct (lookup_lt_is_Some_2 skip k) as [s Hs]; [lia|].
  rewrite (py_index_nat _ _ _ Hs). simpl bind.
  rewrite Nat2Z.inj_succ, <- Z.add_1_r in HY.
  apply outcome_bind.
  eapply outcome_mono;
    [apply (upsample_spec _ _ _ _ Hk' Hu HY (Hskip _ _ Hs))| |auto].
  intros u' Hu'. apply (dconvmod_spec _ _ Hk' Hu').
Qed.

Theorem forward_rule x :
  In x -> outcome (RSUNet_forward net x) Out P.
Proof.
  intros Hin. unfold RSUNet_forward.
  rewrite (reg_depth _ _ _ (built_registered _ _ Hbuilt)).
  apply outcome_bind. rewrite getattr_embed_in. simpl.
  apply outcome_bind.
  eapply outcome_mono; [apply (embed_in_spec _ Hin)| |auto].
  intros x0 Hx0. apply outcome_bind.
  eapply outcome_mono.
  { apply (outcome_foldM_range (forward_down net)
             (fun k st => X (Z.of_nat k) (fst st) /\ skips_ok K k (snd st)) P).
    - simpl. split; [exact Hx0|]. split; [reflexivity|].
      intros j s Hj. rewrite lookup_nil in Hj. discriminate.
    - intros k [x1 skip] Hk [HX Hskip]. simpl in HX, Hskip.
      apply forward_down_rule; assumption. }
  2: auto.
  intros [x1 skip] [HX Hskip]. simpl in HX, Hskip.
  rewrite rounds_nat in HX.
  apply outcome_bind. rewrite getattr_bridge. simpl.
  apply outcome_bind.
  eapply outcome_mono; [apply (bridge_spec _ HX)| |auto].
  intros y HY. apply outcome_bind.
  eapply outcome_mono.
  { apply (outcome_foldM_reversed_range (forward_up net skip)
             (fun k y => Y (Z.of_nat k) y) P).
    - rewrite rounds_nat. exact HY.
    - intros k y' Hk HY'. apply forward_up_rule; assumption. }
  2: auto.
  intros y0 HY0. simpl in HY0.
  apply outcome_bind. rewrite getattr_embed_out. simpl.
  apply outcome_bind.
  eapply outcome_mono; [apply (embed_out_spec _ HY0)| |auto].
  intros z Hz. apply outcome_bind. rewrite getattr_output. simpl.
  apply (output_spec _ Hz).
Qed.

End Forward.

(** ** Constructors and the globals *)

Lemma keeps_ret {A : Type} (a : A) : keeps_globals (retM a).
Proof. intros g. reflexivity. Qed.

Lemma keeps_lift {A : Type} (r : result A) : keeps_globals (liftM r).
Proof. intros g. reflexivity. Qed.

Lemma keeps_bind {A B : Type} (m : M A) (k : A -> M B) :
  keeps_globals m -> (forall a, keeps_globals (k a)) ->
  keeps_globals (bindM m k).
Proof.
  intros Hm Hk g. unfold bindM. specialize (Hm g).
  destruct (m g) as [[a|e] g1]; simpl in Hm; subst g1; [apply Hk|reflexivity].
Qed.

Lemma keeps_foldMM {A S : Type} (f : S -> A -> M S) l s :
  (forall s a, keeps_globals (f s a)) -> keeps_globals (foldMM f l s).
Proof.
  intros Hf. revert s. induction l as [|a l IH]; intros s; simpl.
  - apply keeps_ret.
  - apply keeps_bind; [apply Hf|exact IH].
Qed.

Lemma bindM_ok {A B : Type} (m : M A) (k : A -> M B) g a g1 :
  m g = (Ok a, g1) -> bindM m k g = k a g1.
Proof. unfold bindM. intros ->. reflexivity. Qed.

Lemma bindM_err {A B : Type} (m : M A) (k : A -> M B) g e g1 :
  m g = (Err e, g1) -> bindM m k g = (Err e, g1).
Proof. unfold bindM. intros ->. reflexivity. Qed.

Lemma foldMM_app {A S : Type} (f : S -> A -> M S) l1 l2 s g :
  foldMM f (l1 ++ l2) s g = bindM (foldMM f l1 s) (foldMM f l2) g.
Proof.
  revert s g. induction l1 as [|a l1 IH]; intros s g; simpl.
  - reflexivity.
  - unfold bindM. destruct (f s a g) as [[s1|e] g1]; [|reflexivity].
    rewrite IH. reflexivity.
Qed.

Lemma py_index_in_range {A : Type} (l : list A) k :
  0 <= k < py_len l -> exists a, py_index l k = Ok a.
Proof.
  intros Hk. unfold py_len in Hk.
  destruct (lookup_lt_is_Some_2 l (Z.to_nat k)) as [a Ha]; [lia|].
  exists a. rewrite <- (Z2Nat.id k) by lia. apply py_index_nat. exact Ha.
Qed.

Section Globals.

Context {E : Engine}.

Lemma Conv_init_keeps cin cout ks st pad bias :
  keeps_globals (Conv_init cin cout ks st pad bias).
Proof. intros g. rewrite Conv_init_eq. reflexivity. Qed.

Lemma ConvMod_init_keeps cin cout ks act residual use_bn momentum track :
  keeps_globals (ConvMod_init cin cout ks act residual use_bn momentum track).
Proof.
  intros g. rewrite ConvMod_init_eq.
  destruct (pad_size _ _), use_bn; reflexivity.
Qed.

Lemma UpsampleMod_init_keeps cin cout up mode act use_bn momentum track :
  keeps_globals
    (UpsampleMod_init cin cout up mode act use_bn momentum track).
Proof. intros g. rewrite UpsampleMod_init_eq. reflexivity. Qed.

Lemma EmbeddingMod_init_keeps cin cout ks act stride :
  keeps_globals (EmbeddingMod_init cin cout ks act stride).
Proof.
  intros g. rewrite EmbeddingMod_init_eq. destruct (pad_size _ _); reflexivity.
Qed.

Lemma EmbeddingModUP_init_keeps cin cout ks act stride :
  keeps_globals (EmbeddingModUP_init cin cout ks act stride).
Proof.
  intros g. rewrite EmbeddingModUP_init_eq.
  destruct (pad_size _ _); reflexivity.
Qed.

Lemma OutputMod_init_keeps cin cout :
  keeps_globals (OutputMod_init cin cout (PInt 1)).
Proof. intros g. rewrite OutputMod_init_eq. reflexivity. Qed.

Lemma contracting_step_keeps nf track act st d :
  keeps_globals (contracting_step nf track act st d).
Proof.
  destruct st as [self cin]. intros g. rewrite contracting_step_eq.
  repeat case_match; reflexivity.
Qed.

Lemma expanding_step_keeps nf track act st d :
  keeps_globals (expanding_step nf track act st d).
Proof.
  destruct st as [self cin]. intros g. rewrite expanding_step_eq.
  repeat case_match; reflexivity.
Qed.

Lemma add_conv_mod_keeps self d cin cout ks track act :
  keeps_globals (add_conv_mod self d cin cout ks track act).
Proof.
  apply keeps_bind; [apply ConvMod_init_keeps|intros; apply keeps_ret].
Qed.

(** [RSUNet.__init__] leaves [MODE] set to its [mode] argument, whether it
    returns or raises. *)
Lemma RSUNet_init_sets_MODE aff depth residual upsample use_bn momentum track
    act stride nf mode g :
  snd (RSUNet_init aff depth residual upsample use_bn momentum track act
         stride nf mode g) = {| MODE := mode |}.
Proof.
  unfold RSUNet_init.
  rewrite (bindM_ok _ _ g tt {| MODE := mode |}) by reflexivity.
  generalize {| MODE := mode |}. intros G.
  apply keeps_bind; [apply keeps_lift|intros _].
  apply keeps_bind; [apply EmbeddingMod_init_keeps|intros embed_in].
  apply keeps_bind;
    [apply keeps_foldMM; apply contracting_step_keeps|intros [self cin]].
  apply keeps_bind; [apply keeps_lift|intros fs].
  apply keeps_bind; [apply keeps_lift|intros ks].
  apply keeps_bind; [apply add_conv_mod_keeps|intros self1].
  apply keeps_bind;
    [apply keeps_foldMM; apply expanding_step_keeps|intros [self2 cin2]].
  apply keeps_bind.
  - destruct (py_eq_int stride 1).
    + apply keeps_bind; [apply EmbeddingMod_init_keeps|].
      intros; apply keeps_ret.
    + apply keeps_bind; [apply EmbeddingModUP_init_keeps|].
      intros; apply keeps_ret.
  - intros self3.
    apply keeps_bind; [apply OutputMod_init_keeps|intros; apply keeps_ret].
Qed.

(** Contracting rounds [a, a+1, ..., a+n-1] all succeed below the end of
    [sizes] and of the schedule, when batch normalisation is on. *)
Lemma contracting_rounds_succeed nf track act (n a : nat) self cin g :
  (a + n <= 5)%nat -> (a + n <= length nf)%nat -> net_use_bn self = true ->
  exists self' cin',
    foldMM (contracting_step nf track act) (map Z.of_nat (seq a n))
      (self, cin) g = (Ok (self', cin'), g) /\
    net_use_bn self' = true.
Proof.
  revert a self cin. induction n as [|n IH]; intros a self cin H5 Hlen Hbn.
  - exists self, cin. split; [reflexivity|exact Hbn].
  - cbn [seq map foldMM].
    destruct (py_index_in_range nf (Z.of_nat a)) as [fs Hfs];
      [unfold py_len; lia|].
    destruct (py_index_in_range sizes (Z.of_nat a)) as [ks Hks];
      [change (py_len sizes) with 5; lia|].
    destruct (py_index_sizes _ _ Hks) as [-> _].
    destruct (IH (S a)
                (add_module
                   (add_module self (format "convmod" (Z.of_nat a))
                      (MConvMod (mk_ConvMod (backend_of (MODE g)) cin fs
                                   (PSeq [3; 3; 3]) [1; 1; 1] act
                                   (net_residual self) (net_momentum self)
                                   track)))
                   (format "maxpool" (Z.of_nat a + 1)) (MMaxPool3d (PInt 2)))
                fs) as (self' & cin' & Hfold & Hbn');
      [lia|lia|exact Hbn|].
    exists self', cin'. split; [|exact Hbn'].
    erewrite bindM_ok; [exact Hfold|].
    rewrite contracting_step_eq, Hfs, Hks.
    change (pad_size (_triple (PSeq [3; 3; 3])) "same") with (Ok [1; 1; 1]).
    cbv iota beta. rewrite Hbn. reflexivity.
Qed.

End Globals.

(** * The claims *)

(** ** ShapeUtil: [normalize] (C8) *)

(** C8, as stated, fails: [normalize] does not check the length of a
    sequence.  A 2-element kernel size goes through [_triple] unchanged, and
    [pad_size] computes a 2-element padding from it without raising. *)
Lemma C8_wrong_length_is_returned :
  _triple (PSeq [3; 3]) = PSeq [3; 3] /\
  pad_size (PSeq [3; 3]) "same" = Ok [1; 1].
Proof. split; reflexivity. Qed.

(** C8, amended: [_ntuple n] returns every sequence unchanged, whatever its
    length, and replicates a scalar [n] times (giving a sequence of length
    [n] whose elements all equal the scalar); it never raises. *)
Theorem C8_ntuple_total (n : nat) :
  (forall l, _ntuple n (PSeq l) = PSeq l) /\
  (forall z, exists l,
      _ntuple n (PInt z) = PSeq l /\ length l = n /\ Forall (eq z) l).
Proof.
  split; [reflexivity|]. intros z. exists (repeat z n).
  split; [reflexivity|]. split; [apply repeat_length|].
  apply Forall_forall. intros y Hy. symmetry.
  apply (repeat_spec n z y). apply list_elem_of_In. exact Hy.
Qed.

(** ** ConvModule (C4) *)

(** C4: [ConvMod.forward] is the six-step sequence of the specification.
    Step by step: it returns [r] exactly when the first convolution,
    normalisation and activation give [h], the second ones and the third
    convolution give [h3], the residual sum [h3 + h] (or [h3] itself when
    the residual is off) gives [s], and the third normalisation and the
    activation of [s] give [r]: the addend is the activated output of the
    first convolution, and the sum is taken before the third
    normalisation. *)
Theorem C4_ConvMod_forward_six_steps {E : Engine} (self : ConvMod)
    (x : tensor) :
  ConvMod_forward self x = ConvModule_apply_spec self x /\
  forall r,
    ConvMod_forward self x = Ok r <->
    exists c1 n1 h c2 n2 h2 h3 s n3,
      Conv_forward (cm_conv1 self) x = Ok c1 /\
      norm_call (cm_bn1 self) c1 = Ok n1 /\
      cm_activation self n1 = Ok h /\
      Conv_forward (cm_conv2 self) h = Ok c2 /\
      norm_call (cm_bn2 self) c2 = Ok n2 /\
      cm_activation self n2 = Ok h2 /\
      Conv_forward (cm_conv3 self) h2 = Ok h3 /\
      (if cm_residual self then tensor_add h3 h else Ok h3) = Ok s /\
      norm_call (cm_bn3 self) s = Ok n3 /\
      cm_activation self n3 = Ok r.
Proof.
  split; [reflexivity|]. intros r. unfold ConvMod_forward, residual_sum.
  split.
  - intros Hrun.
    repeat match type of Hrun with
           | bind ?e _ = Ok _ =>
             let v := fresh "v" in
             let Hv := fresh "Hv" in
             destruct e as [v|] eqn:Hv; [cbn [bind] in Hrun|discriminate Hrun]
           end.
    do 9 eexists.
    repeat (split; [first [reflexivity|eassumption]|]). exact Hrun.
  - intros (c1 & n1 & h & c2 & n2 & h2 & h3 & s & n3 & H1 & H2 & H3 & H4 & H5
            & H6 & H7 & H8 & H9 & H10).
    rewrite H1; cbn [bind]. rewrite H2; cbn [bind]. rewrite H3; cbn [bind].
    rewrite H4; cbn [bind]. rewrite H5; cbn [bind]. rewrite H6; cbn [bind].
    rewrite H7; cbn [bind]. rewrite H8; cbn [bind]. rewrite H9; cbn [bind].
    exact H10.
Qed.

(** ** ConvBlock (C7) *)

(** C7 at the failing input, any [Conv] built with [bias=True]: the layer
    is created without a bias ([bias=False], or [bias=None] under ['tvm']),
    so [nn.init.constant_(self.conv.bias, 0)] is applied to [None] and
    raises; no block holding a zero bias is returned.  The sibling [ConvT]
    passes [bias] on and does return a zero bias. *)
Theorem C7_Conv_bias_is_never_created {E : Engine} (cin cout : Z)
    (ks st pad out_pad : pyval) (g : globals) :
  Conv_init cin cout ks st pad true g = (Err (AttributeError "fill_"), g) /\
  (exists t, ConvT_init cin cout ks st pad out_pad true g = (Ok t, g) /\
             ct_bias (convt_conv t) = Some (Constant 0)).
Proof.
  split; [rewrite Conv_init_eq; reflexivity|].
  eexists. split; reflexivity.
Qed.

(** ** Output feature embedding (C5) *)

(** C5 at the failing input [init_stride=(1,1,1)]: the test
    [init_stride == 1] compares a tuple with an int and is false, so the
    network gets an [EmbeddingModUP] (stride [(1,1,1)], output padding
    [(0,1,1)]) and not the plain [EmbeddingMod]. *)
Theorem C5_unit_tuple_selects_upsampling_embedding :
  match fst (shape_net 3 2 "bilinear" true (PSeq [1; 1; 1]) [8; 16; 32]
               "tvm") with
  | Ok net => _modules net !! "embed_out"
  | Err _ => None
  end =
  Some (MEmbeddingModUP
          (mk_EmbeddingModUP (E := shape_engine) 8 24 embed_ks [0; 2; 2]
             Shape.elu (PSeq [1; 1; 1]))).
Proof. vm_compute. reflexivity. Qed.

(** ** Depth and schedule (C3) *)

(** C3 at the failing input, a schedule of 6 widths and [depth=5]: the
    assertion [depth < len(nfeatures)] passes and construction then raises
    [IndexError] at [sizes[5]]. *)
Theorem C3_depth_5_of_6_raises_IndexError :
  fst (RSUNet_init (E := shape_engine) 3 5 true "bilinear" true (1 # 1000)
         false Shape.elu init_stride [8; 16; 32; 64; 128; 256] "tvm"
         initial_globals) = Err IndexError.
Proof. vm_compute. reflexivity. Qed.

(** ** Kernel sizes (C10) *)



(** ** The global [MODE] (C9) *)

Lemma expected_backends {E : Engine} (c : config) ph s m :
  expected c ph s = Some m ->
  Forall (eq (backend_of (cfg_mode c))) (module_backends m).
Proof.
  destruct s; simpl; unfold the_embed_out, mk_UpsampleMod;
    repeat case_match; simpl; intros [= <-]; simpl;
    repeat constructor.
Qed.

Lemma built_backends {E : Engine} (c : config) net :
  built c net -> Forall (eq (backend_of (cfg_mode c))) (net_backends net).
Proof.
  intros Hb. unfold net_backends. apply Forall_concat, Forall_forall.
  intros bs Hbs. apply list_elem_of_In, in_map_iff in Hbs as ([name m] & <- & Hin).
  apply list_elem_of_In, elem_of_map_to_list in Hin. simpl.
  destruct (reg_closed _ _ _ (built_registered _ _ Hb) _ _ Hin) as [s ->].
  rewrite (reg_lookup _ _ _ (built_registered _ _ Hb)) in Hin.
  exact (expected_backends _ _ _ _ Hin).
Qed.



Lemma scenario_torch_then_tvm_ok :
  is_ok (fst (shape_net_from {| MODE := "torch" |} 3 2 "bilinear" true
                (PInt 1) [8; 16; 32] "tvm")) = true.
Proof. vm_compute. reflexivity. Qed.


(** ** Errors at construction and at call time (C6) *)

Section Raises.

Context {E : Engine}.

Variable P : exn -> Prop.
Variable act : tensor -> result tensor.
Hypothesis He : engine_raises_only P act.

Lemma raises_bind {A B : Type} (r : result A) (k : A -> result B) :
  raises_only P r -> (forall a, raises_only P (k a)) ->
  raises_only P (bind r k).
Proof. destruct r; simpl; auto. Qed.

Lemma norm_call_raises n x : raises_only P (norm_call n x).
Proof. destruct n; simpl; [apply (ero_batch_norm3d _ _ He)|exact I]. Qed.

Lemma ConvMod_forward_raises m x :
  cm_activation m = act -> raises_only P (ConvMod_forward m x).
Proof.
  intros Hact. unfold ConvMod_forward, Conv_forward, residual_sum.
  rewrite Hact.
  repeat (apply raises_bind;
          [first [apply (ero_conv3d _ _ He) | apply norm_call_raises
                 | apply (ero_act _ _ He)
                 | destruct (cm_residual m);
                   [apply (ero_tensor_add _ _ He)|exact I]]
          |intros ?]).
  apply (ero_act _ _ He).
Qed.

Lemma UpsampleMod_forward_raises u x skip :
  um_activation u = act -> raises_only P (UpsampleMod_forward u x skip).
Proof.
  intros Hact. unfold UpsampleMod_forward. rewrite Hact.
  apply raises_bind.
  { destruct (um_up u); simpl;
      [apply (ero_upsample _ _ He)|apply (ero_conv_transpose3d _ _ He)]. }
  intros x1. apply raises_bind.
  { destruct (um_conv u); simpl; [apply (ero_conv3d _ _ He)|exact I]. }
  intros x2. apply raises_bind; [apply (ero_tensor_add _ _ He)|].
  intros x3. apply raises_bind; [apply norm_call_raises|].
  intros x4. apply (ero_act _ _ He).
Qed.

Lemma EmbeddingMod_forward_raises m x :
  em_activation m = act -> raises_only P (EmbeddingMod_forward m x).
Proof.
  intros Hact. unfold EmbeddingMod_forward. rewrite Hact.
  apply raises_bind; [apply (ero_conv3d _ _ He)|].
  intros y. apply (ero_act _ _ He).
Qed.

Lemma EmbeddingModUP_forward_raises m x :
  eu_activation m = act -> raises_only P (EmbeddingModUP_forward m x).
Proof.
  intros Hact. unfold EmbeddingModUP_forward. rewrite Hact.
  apply raises_bind; [apply (ero_conv_transpose3d _ _ He)|].
  intros y. apply (ero_act _ _ He).
Qed.

Lemma mk_UpsampleMod_activation b cin cout up mode use_bn momentum track u :
  mk_UpsampleMod b cin cout up mode act use_bn momentum track = Some u ->
  um_activation u = act.
Proof.
  unfold mk_UpsampleMod. repeat case_match; intros [= <-]; reflexivity.
Qed.

(** The forward pass of a constructed network raises nothing of its own:
    no [AttributeError], [IndexError], [TypeError] or [AssertionError]. *)
Lemma RSUNet_forward_raises (c : config) net x :
  cfg_activation c = act -> built c net ->
  raises_only P (RSUNet_forward net x).
Proof.
  intros Hact Hb.
  apply (forward_rule c net Hb
           (fun _ _ => True) (fun _ _ => True) (fun _ _ => True)
           (fun _ _ => True) (fun _ => True) (fun _ => True)
           (fun _ => True) P); try exact I; intros; simpl.
  - apply EmbeddingMod_forward_raises. exact Hact.
  - apply ConvMod_forward_raises. exact Hact.
  - apply (ero_max_pool3d _ _ He).
  - apply ConvMod_forward_raises. exact Hact.
  - apply UpsampleMod_forward_raises.
    match goal with
    | H : mk_UpsampleMod _ _ _ _ _ _ _ _ _ = Some _ |- _ =>
      rewrite Hact in H; exact (mk_UpsampleMod_activation _ _ _ _ _ _ _ _ _ H)
    end.
  - apply ConvMod_forward_raises. exact Hact.
  - unfold the_embed_out. destruct (py_eq_int (cfg_init_stride c) 1); simpl.
    + apply EmbeddingMod_forward_raises. exact Hact.
    + apply EmbeddingModUP_forward_raises. exact Hact.
  - apply (ero_conv3d _ _ He).
Qed.

End Raises.

Lemma upsample_unknown mode :
  mode ∉ ["bilinear"; "nearest"; "transpose"] -> upsample_known mode = false.
Proof.
  intros Hmode. unfold upsample_known.
  repeat match goal with
         | |- context [String.eqb mode ?s] =>
           destruct (String.eqb_spec mode s) as [->|_];
           [exfalso; apply Hmode; set_solver|]
         end.
  reflexivity.
Qed.

Lemma broadcast_rev_raises a b :
  outcome (Shape.broadcast_rev a b) (fun _ => True) engine_exn.
Proof.
  revert b. induction a as [|x a IH]; intros [|y b]; simpl; try exact I.
  specialize (IH b). destruct (Shape.broadcast_rev a b); simpl; [|exact IH].
  repeat case_match; exact I.
Qed.

Lemma shape_engine_raises :
  engine_raises_only (E := shape_engine) engine_exn Shape.elu.
Proof.
  split; simpl; intros.
  - unfold Shape.conv3d, Shape.triple, Shape.conv_out.
    repeat (case_match; simpl; try exact I).
  - unfold Shape.conv_transpose3d, Shape.triple, Shape.conv_transpose_out.
    repeat (case_match; simpl; try exact I).
  - unfold Shape.batch_norm3d. repeat (case_match; simpl; try exact I).
  - unfold Shape.max_pool3d, Shape.triple, Shape.pool_out.
    repeat (case_match; simpl; try exact I).
  - unfold Shape.upsample, Shape.triple.
    repeat (case_match; simpl; try exact I).
  - unfold Shape.tensor_add, map_result.
    pose proof (broadcast_rev_raises (rev x) (rev y)) as H.
    destruct (Shape.broadcast_rev (rev x) (rev y)); simpl; [exact I|exact H].
  - exact I.
Qed.


(** On shapes, for the network of the concrete scenario: ["foo"] is
    rejected when an [UpsampleMod] is constructed, and a forward pass on an
    input that does not fit (odd extents) raises an exception of the tensor
    library. *)
Lemma scenario_ok :
  is_ok (fst (shape_net 3 2 "bilinear" true (PInt 1) [8; 16; 32] "tvm")) = true.
Proof. vm_compute. reflexivity. Qed.

Lemma foo_is_unknown : "foo" ∉ ["bilinear"; "nearest"; "transpose"].
Proof.
  intros H. repeat (apply elem_of_cons in H as [H|H]; [discriminate H|]).
  by apply elem_of_nil in H.
Qed.


(** ** Skip connections (C2) *)

Lemma py_index_nat_inv {A : Type} (l : list A) (k : nat) a :
  py_index l (Z.of_nat k) = Ok a -> l !! k = Some a.
Proof.
  unfold py_index.
  destruct (Z.of_nat k <? 0) eqn:Hneg; [apply Z.ltb_lt in Hneg; lia|].
  destruct ((0 <=? Z.of_nat k) && (Z.of_nat k <? py_len l)); [|discriminate].
  rewrite Nat2Z.id. destruct (l !! k); [intros [= ->]; reflexivity|discriminate].
Qed.

Lemma outcome_any {A : Type} (r : result A) (Q : A -> Prop) :
  (forall a, Q a) -> outcome r Q (fun _ => True).
Proof. destruct r; simpl; auto. Qed.

Section Trace.

Context {E : Engine}.

Variable net : RSUNet.

Lemma lifo_trace_stages ts :
  lifo_trace ts = (map recorded (stages ts) ++ map consumed (rev (stages ts)))%list.
Proof.
  unfold lifo_trace, stages, range, py_len. rewrite Nat2Z.id. reflexivity.
Qed.

Lemma stages_snoc skip x :
  stages (skip ++ [x]) = (stages skip ++ [(Z.of_nat (length skip), x)])%list.
Proof.
  unfold stages. rewrite length_app. simpl length.
  rewrite Nat.add_1_r, seq_S, map_app. simpl.
  rewrite zip_with_app; [reflexivity|].
  rewrite length_map, length_seq. reflexivity.
Qed.

Lemma stages_lookup skip k s :
  skip !! k = Some s -> stages skip !! k = Some (Z.of_nat k, s).
Proof.
  intros Hs. unfold stages. apply lookup_zip_with_Some.
  exists (Z.of_nat k), s. split; [reflexivity|]. split; [|exact Hs].
  rewrite list_lookup_fmap.
  assert (Hlt := lookup_lt_Some _ _ _ Hs).
  replace (seq 0 (length skip) !! k) with (Some k); [reflexivity|].
  symmetry. apply lookup_seq. split; [reflexivity|exact Hlt].
Qed.

Lemma forward_down_traced_log k x skip tr :
  outcome (forward_down_traced net (x, skip, tr) (Z.of_nat k))
    (fun st =>
       length skip = k -> tr = map recorded (stages skip) ->
       length (snd (fst st)) = S k /\
       snd st = map recorded (stages (snd (fst st))))
    (fun _ => True).
Proof.
  unfold forward_down_traced.
  repeat (apply outcome_bind, outcome_any; intros ?).
  simpl. intros Hlen Htr. split.
  - rewrite length_app. simpl. lia.
  - rewrite stages_snoc, map_app, Htr, Hlen. reflexivity.
Qed.

Lemma forward_up_traced_log skip k x tr :
  outcome (forward_up_traced net skip (x, tr) (Z.of_nat k))
    (fun st =>
       forall pre, tr = (pre ++ map consumed (rev (drop (S k) (stages skip))))%list ->
       snd st = (pre ++ map consumed (rev (drop k (stages skip))))%list)
    (fun _ => True).
Proof.
  unfold forward_up_traced.
  do 2 (apply outcome_bind, outcome_any; intros ?).
  destruct (py_index skip (Z.of_nat k)) as [s|] eqn:Hs; simpl; [|exact I].
  repeat (apply outcome_bind, outcome_any; intros ?).
  simpl. intros pre ->.
  apply py_index_nat_inv, stages_lookup in Hs.
  rewrite (drop_S _ _ _ Hs). simpl rev. rewrite map_app, app_assoc.
  reflexivity.
Qed.

(** A forward pass that returns has logged a last-in-first-out trace over
    [depth] stages. *)
Lemma RSUNet_forward_traced_lifo x y tr :
  RSUNet_forward_traced net x = Ok (y, tr) ->
  exists ts,
    length ts = Z.to_nat (net_depth net) /\ tr = lifo_trace ts.
Proof.
  intros Hrun.
  enough (Hout : outcome (RSUNet_forward_traced net x)
            (fun r => exists ts, length ts = Z.to_nat (net_depth net) /\
                                 snd r = lifo_trace ts)
            (fun _ => True)) by (rewrite Hrun in Hout; exact Hout).
  clear Hrun. unfold RSUNet_forward_traced.
  do 2 (apply outcome_bind, outcome_any; intros ?).
  apply outcome_bind.
  eapply outcome_mono.
  { apply (outcome_foldM_range (forward_down_traced net)
             (fun k st => length (snd (fst st)) = k /\
                          snd st = map recorded (stages (snd (fst st))))
             (fun _ => True)).
    - split; reflexivity.
    - intros k [[x1 skip] tr1] Hk [Hlen Htr]. simpl in Hlen, Htr.
      eapply outcome_mono; [apply forward_down_traced_log| |auto].
      intros st Hst. apply Hst; assumption. }
  2: auto.
  intros [[x1 skip] tr1] [Hlen Htr]. simpl in Hlen, Htr.
  do 2 (apply outcome_bind, outcome_any; intros ?).
  apply outcome_bind.
  eapply outcome_mono.
  { apply (outcome_foldM_reversed_range (forward_up_traced net skip)
             (fun k st =>
                snd st = (map recorded (stages skip)
                          ++ map consumed (rev (drop k (stages skip))))%list)
             (fun _ => True)).
    - simpl. rewrite drop_ge; [rewrite app_nil_r; exact Htr|].
      unfold stages. rewrite length_zip_with, length_map, length_seq. lia.
    - intros k [x2 tr2] Hk Htr2. simpl in Htr2.
      eapply outcome_mono; [apply forward_up_traced_log| |auto].
      intros st Hst. apply Hst. exact Htr2. }
  2: auto.
  intros [x2 tr2] Htr2. simpl in Htr2. rewrite drop_0 in Htr2.
  repeat (apply outcome_bind, outcome_any; intros ?).
  simpl. exists skip. split; [exact Hlen|].
  rewrite lifo_trace_stages. exact Htr2.
Qed.

(** The log is ghost state: dropping it gives [RSUNet_forward]. *)
Lemma forward_down_erase l x skip tr :
  map_result fst (foldM (forward_down_traced net) l (x, skip, tr)) =
  foldM (forward_down net) l (x, skip).
Proof.
  revert x skip tr. induction l as [|d l IH]; intros x skip tr; simpl.
  - reflexivity.
  - destruct (getattr net (format "convmod" d)) as [m1|]; [|reflexivity].
    destruct (getattr net (format "maxpool" (d + 1))) as [m2|]; [|reflexivity].
    simpl. destruct (call m1 [x]) as [x1|]; [|reflexivity].
    simpl. destruct (call m2 [x1]) as [x2|]; [|reflexivity].
    simpl. apply IH.
Qed.

Lemma forward_up_erase skip l x tr :
  map_result fst (foldM (forward_up_traced net skip) l (x, tr)) =
  foldM (forward_up net skip) l x.
Proof.
  revert x tr. induction l as [|d l IH]; intros x tr; simpl.
  - reflexivity.
  - unfold forward_up.
    destruct (getattr net (format "upsample" d)) as [m1|]; [|reflexivity].
    destruct (getattr net (format "dconvmod" d)) as [m2|]; [|reflexivity].
    simpl. destruct (py_index skip d) as [s|]; [|reflexivity].
    simpl. destruct (call m1 [x; s]) as [u|]; [|reflexivity].
    simpl. destruct (call m2 [u]) as [x1|]; [|reflexivity].
    simpl. apply IH.
Qed.

Lemma RSUNet_forward_erase x :
  RSUNet_forward net x = map_result fst (RSUNet_forward_traced net x).
Proof.
  unfold RSUNet_forward, RSUNet_forward_traced.
  destruct (getattr net "embed_in") as [m0|]; [|reflexivity].
  simpl. destruct (call m0 [x]) as [x0|]; [|reflexivity].
  simpl. rewrite <- (forward_down_erase _ x0 [] []).
  destruct (foldM (forward_down_traced net) _ _) as [[[x1 skip] tr]|];
    [|reflexivity].
  simpl.
  destruct (getattr net (format "convmod" (net_depth net))) as [m1|];
    [|reflexivity].
  simpl. destruct (call m1 [x1]) as [x2|]; [|reflexivity].
  simpl. rewrite <- (forward_up_erase skip _ x2 tr).
  destruct (foldM (forward_up_traced net skip) _ _) as [[x3 tr3]|];
    [|reflexivity].
  simpl. destruct (getattr net "embed_out") as [m2|]; [|reflexivity].
  simpl. destruct (call m2 [x3]) as [x4|]; [|reflexivity].
  simpl. destruct (getattr net "output") as [m3|]; [|reflexivity].
  simpl. destruct (call m3 [x4]); reflexivity.
Qed.

End Trace.



(** The log of the concrete scenario. *)
Example scenario_trace :
  match fst (shape_net 3 2 "bilinear" true (PInt 1) [8; 16; 32] "tvm") with
  | Ok net => RSUNet_forward_traced net [1; 1; 16; 64; 64]
  | Err e => Err e
  end =
  Ok ([1; 3; 16; 64; 64],
      [Recorded (E := shape_engine) 0 [1; 8; 16; 64; 64];
       Recorded (E := shape_engine) 1 [1; 16; 8; 32; 32];
       Consumed (E := shape_engine) 1 [1; 16; 8; 32; 32];
       Consumed (E := shape_engine) 0 [1; 8; 16; 64; 64]]).
Proof. vm_compute. reflexivity. Qed.

(** ** Shapes (C1) *)

Module ShapeRules.

Lemma conv_out_same d k p :
  0 < d -> 0 <= p -> k = 2 * p + 1 -> Shape.conv_out d k 1 p = Ok d.
Proof.
  intros Hd Hp ->. unfold Shape.conv_out.
  replace (2 * p + 1 <=? d + 2 * p) with true
    by (symmetry; apply Z.leb_le; lia).
  simpl. rewrite Z.div_1_r. f_equal. lia.
Qed.

Lemma pool_out_half d : 0 < d -> Shape.pool_out (2 * d) 2 = Ok d.
Proof.
  intros Hd. unfold Shape.pool_out. simpl (0 <? 2).  cbv iota.
  replace ((2 * d - 2) / 2 + 1) with d
    by (replace (2 * d - 2) with ((d - 1) * 2) by lia;
        rewrite Z.div_mul by lia; lia).
  replace (0 <? d) with true by (symmetry; apply Z.ltb_lt; lia).
  reflexivity.
Qed.

Lemma conv_transpose_out_double d :
  0 < d -> Shape.conv_transpose_out d 2 2 0 0 = Ok (2 * d).
Proof.
  intros Hd. unfold Shape.conv_transpose_out. simpl (_ && _). cbv iota.
  replace ((d - 1) * 2 - 2 * 0 + (2 - 1) + 0 + 1) with (2 * d) by lia.
  replace (0 <? 2 * d) with true by (symmetry; apply Z.ltb_lt; lia).
  reflexivity.
Qed.

Lemma broadcast_rev_same l : Shape.broadcast_rev l l = Ok l.
Proof.
  induction l as [|x l IH]; simpl; [reflexivity|].
  rewrite IH. simpl. rewrite Z.eqb_refl. reflexivity.
Qed.

Lemma tensor_add_same x : Shape.tensor_add x x = Ok x.
Proof.
  unfold Shape.tensor_add. rewrite broadcast_rev_same. simpl.
  rewrite rev_involutive. reflexivity.
Qed.

(** A stride-1 convolution whose padding is half of its (odd) kernel keeps
    the spatial shape. *)
Lemma conv3d_same l n c d h w kd kh kw pd ph pw :
  c = c_in l ->
  Shape.triple (c_kernel l) = Ok (kd, kh, kw) ->
  Shape.triple (c_stride l) = Ok (1, 1, 1) ->
  Shape.triple (c_padding l) = Ok (pd, ph, pw) ->
  kd = 2 * pd + 1 -> kh = 2 * ph + 1 -> kw = 2 * pw + 1 ->
  0 <= pd -> 0 <= ph -> 0 <= pw ->
  0 < d -> 0 < h -> 0 < w ->
  Shape.conv3d l [n; c; d; h; w] = Ok [n; c_out l; d; h; w].
Proof.
  intros -> Hk Hs Hp Hkd Hkh Hkw Hpd Hph Hpw Hd Hh Hw.
  unfold Shape.conv3d. rewrite Z.eqb_refl, Hk, Hs, Hp. cbn [bind].
  rewrite !conv_out_same by assumption. reflexivity.
Qed.

Lemma batch_norm3d_same l n c d h w :
  c = bn_features l -> 1 < n * d * h * w ->
  Shape.batch_norm3d l [n; c; d; h; w] = Ok [n; c; d; h; w].
Proof.
  intros -> Hn. unfold Shape.batch_norm3d. rewrite Z.eqb_refl.
  replace (1 <? n * d * h * w) with true by (symmetry; apply Z.ltb_lt; lia).
  reflexivity.
Qed.

Lemma max_pool3d_half n c d h w :
  0 < d -> 0 < h -> 0 < w ->
  Shape.max_pool3d (PInt 2) [n; c; 2 * d; 2 * h; 2 * w] = Ok [n; c; d; h; w].
Proof.
  intros Hd Hh Hw. unfold Shape.max_pool3d. cbn [Shape.triple bind].
  rewrite !pool_out_half by assumption. reflexivity.
Qed.

Lemma upsample_double mode n c d h w :
  0 < d -> 0 < h -> 0 < w ->
  Shape.upsample (PInt 2) mode [n; c; d; h; w] =
  Ok [n; c; 2 * d; 2 * h; 2 * w].
Proof.
  intros Hd Hh Hw. unfold Shape.upsample. cbn [Shape.triple bind].
  replace ((0 <? 2 * d) && (0 <? 2 * h) && (0 <? 2 * w)) with true;
    [reflexivity|].
  symmetry. rewrite !andb_true_iff, !Z.ltb_lt. lia.
Qed.

Lemma conv_transpose3d_double l n c d h w :
  c = ct_in l -> ct_kernel l = PInt 2 -> ct_stride l = PInt 2 -> ct_padding l = PInt 0 ->
  ct_out_pad l = PInt 0 ->
  0 < d -> 0 < h -> 0 < w ->
  Shape.conv_transpose3d l [n; c; d; h; w] =
  Ok [n; ct_out l; 2 * d; 2 * h; 2 * w].
Proof.
  intros -> Hk Hs Hp Ho Hd Hh Hw. unfold Shape.conv_transpose3d.
  rewrite Z.eqb_refl, Hk, Hs, Hp, Ho. cbn [Shape.triple bind].
  rewrite !conv_transpose_out_double by assumption. reflexivity.
Qed.

Section Modules.

#[local] Existing Instance shape_engine.

Variable act : list Z -> result (list Z).
Hypothesis Hact : forall s, act s = Ok s.

Variables n d h w : Z.
Hypothesis Hd : 0 < d.
Hypothesis Hh : 0 < h.
Hypothesis Hw : 0 < w.

Ltac shape_side :=
  first [reflexivity | assumption | lia].

Ltac shape_step :=
  first
    [ rewrite Hact
    | erewrite conv3d_same by shape_side
    | rewrite batch_norm3d_same by shape_side
    | rewrite tensor_add_same ];
  cbn [bind c_out].

Lemma ConvMod_shape b cin cout residual momentum track :
  1 < n * d * h * w ->
  call (E := shape_engine)
    (MConvMod (mk_ConvMod b cin cout (PSeq [3; 3; 3]) [1; 1; 1] act residual
                 momentum track)) [[n; cin; d; h; w]] =
  Ok [n; cout; d; h; w].
Proof.
  intros Hn.
  unfold call, ConvMod_forward, Conv_forward, residual_sum, norm_call,
    mk_ConvMod, mk_Conv, mk_bn.
  cbn [cm_conv1 cm_conv2 cm_conv3 cm_bn1 cm_bn2 cm_bn3 cm_activation
       cm_residual conv_conv conv3d batch_norm3d tensor_add shape_engine].
  do 7 shape_step.
  destruct residual; cbn [bind]; repeat shape_step; reflexivity.
Qed.

Lemma UpsampleMod_shape b cin cout mode momentum track u :
  0 < n ->
  mk_UpsampleMod b cin cout (PInt 2) mode act true momentum track = Some u ->
  call (E := shape_engine) (MUpsampleMod u)
    [[n; cin; d; h; w]; [n; cout; 2 * d; 2 * h; 2 * w]] =
  Ok [n; cout; 2 * d; 2 * h; 2 * w].
Proof.
  intros Hn Hu.
  assert (Hbn : 1 < n * (2 * d) * (2 * h) * (2 * w)) by nia.
  unfold mk_UpsampleMod in Hu.
  destruct (String.eqb mode "bilinear");
    [|destruct (String.eqb mode "nearest");
      [|destruct (String.eqb mode "transpose"); [|discriminate]]];
    injection Hu as <-;
    unfold call, UpsampleMod_forward, up_call, conv_or_id_call, ConvT_forward,
      Conv_forward, norm_call, batchnorm, mk_Conv, mk_ConvT;
    cbn [um_up um_conv um_bn um_activation conv_conv convt_conv conv3d
         conv_transpose3d upsample batch_norm3d tensor_add shape_engine].
  - rewrite upsample_double by assumption. cbn [bind].
    erewrite conv3d_same by shape_side. cbn [bind c_out].
    repeat shape_step. reflexivity.
  - rewrite upsample_double by assumption. cbn [bind].
    erewrite conv3d_same by shape_side. cbn [bind c_out].
    repeat shape_step. reflexivity.
  - rewrite conv_transpose3d_double by shape_side. cbn [bind ct_out].
    repeat shape_step. reflexivity.
Qed.

Lemma EmbeddingMod_shape b cin cout :
  call (E := shape_engine)
    (MEmbeddingMod (mk_EmbeddingMod b cin cout embed_ks [0; 2; 2] act
                      (PInt 1))) [[n; cin; d; h; w]] =
  Ok [n; cout; d; h; w].
Proof.
  unfold call, EmbeddingMod_forward, Conv_forward, mk_EmbeddingMod, mk_Conv,
    embed_ks.
  cbn [em_conv em_activation conv_conv conv3d shape_engine].
  repeat shape_step. reflexivity.
Qed.

Lemma OutputMod_shape b cin cout :
  call (E := shape_engine) (MOutputMod (mk_OutputMod b cin cout))
    [[n; cin; d; h; w]] =
  Ok [n; cout; d; h; w].
Proof.
  unfold call, OutputMod_forward, Conv_forward, mk_OutputMod, mk_Conv.
  cbn [om_conv conv_conv conv3d shape_engine].
  repeat shape_step. reflexivity.
Qed.

Lemma MaxPool3d_shape c' :
  call (E := shape_engine) (MMaxPool3d (PInt 2))
    [[n; c'; 2 * d; 2 * h; 2 * w]] =
  Ok [n; c'; d; h; w].
Proof.
  unfold call. cbn [max_pool3d shape_engine].
  apply max_pool3d_half; assumption.
Qed.

End Modules.

End ShapeRules.

Lemma outcome_eq {A : Type} (r : result A) (v : A) :
  outcome r (fun y => y = v) (fun _ => False) -> r = Ok v.
Proof. destruct r; simpl; [intros ->; reflexivity|intros []]. Qed.

Lemma eq_outcome {A : Type} (r : result A) (v : A) (Q : A -> Prop)
    (P : exn -> Prop) :
  r = Ok v -> Q v -> outcome r Q P.
Proof. intros -> HQ. exact HQ. Qed.

Lemma pow_level depth k :
  0 <= k < depth -> 2 ^ (depth - k) = 2 * 2 ^ (depth - (k + 1)).
Proof.
  intros Hk. replace (depth - k) with (Z.succ (depth - (k + 1))) by lia.
  apply Z.pow_succ_r. lia.
Qed.

Lemma scaled_volume n d h w q :
  0 < n -> 0 < d -> 0 < h -> 0 < w -> 1 <= q ->
  1 < n * d * h * w -> 1 < n * (q * d) * (q * h) * (q * w).
Proof.
  intros Hn Hd Hh Hw Hq Hv.
  assert (Hq3 : 1 <= q * q * q) by nia.
  replace (n * (q * d) * (q * h) * (q * w))
    with ((q * q * q) * (n * d * h * w)) by ring.
  nia.
Qed.

Section ShapePreserved.

#[local] Existing Instance shape_engine.

Variable c : config.
Variable net : RSUNet.
Hypothesis Hbuilt : built c net.
Hypothesis Hstride : cfg_init_stride c = PInt 1.
Hypothesis Hact : forall s, cfg_activation c s = Ok s.
Hypothesis Hdepth : 0 <= cfg_depth c.

(** The batch size and the spatial extents at the bridge. *)
Variables n d h w : Z.
Hypothesis Hn : 0 < n.
Hypothesis Hd : 0 < d.
Hypothesis Hh : 0 < h.
Hypothesis Hw : 0 < w.
Hypothesis Hvolume : 1 < n * d * h * w.

#[local] Abbreviation level := (level_shape (cfg_depth c) n d h w).

Lemma level_scale k : 0 <= k <= cfg_depth c -> 1 <= 2 ^ (cfg_depth c - k).
Proof.
  intros Hk.
  assert (0 < 2 ^ (cfg_depth c - k)) by (apply Z.pow_pos_nonneg; lia). lia.
Qed.

Lemma level_half k ch :
  0 <= k < cfg_depth c ->
  level k ch =
  [n; ch; 2 * (2 ^ (cfg_depth c - (k + 1)) * d);
   2 * (2 ^ (cfg_depth c - (k + 1)) * h);
   2 * (2 ^ (cfg_depth c - (k + 1)) * w)].
Proof.
  intros Hk. unfold level_shape. cbv zeta. rewrite (pow_level _ _ Hk).
  rewrite <- !Z.mul_assoc. reflexivity.
Qed.

Lemma level_ConvMod k cin cout :
  0 <= k <= cfg_depth c ->
  call (the_ConvMod c cin cout) [level k cin] = Ok (level k cout).
Proof.
  intros Hk. pose proof (level_scale k Hk) as Hq.
  unfold the_ConvMod, level_shape. cbv zeta.
  apply ShapeRules.ConvMod_shape;
    first [exact Hact | apply scaled_volume; assumption | nia].
Qed.

Lemma RSUNet_forward_level :
  RSUNet_forward net (level 0 1) = Ok (level 0 (cfg_aff c)).
Proof.
  assert (Hrounds : rounds c = cfg_depth c) by (unfold rounds; lia).
  apply outcome_eq.
  apply (forward_rule c net Hbuilt
           (fun k x => x = level k (chan_in c k))
           (fun k s => s = level k (chan c k))
           (fun k y => y = level k (chan c k))
           (fun k u => u = level k (chan c k))
           (fun x => x = level 0 1)
           (fun z => z = level 0 embed_nout)
           (fun y => y = level 0 (cfg_aff c))
           (fun _ => False)); [| | | | | | | |reflexivity].
  - intros x ->. rewrite Hstride.
    eapply eq_outcome; [|reflexivity].
    pose proof (level_scale 0 ltac:(lia)) as Hq.
    unfold level_shape. cbv zeta.
    apply ShapeRules.EmbeddingMod_shape; try exact Hact; nia.
  - intros k x Hk ->. rewrite Hrounds in Hk.
    eapply eq_outcome; [apply level_ConvMod; lia|reflexivity].
  - intros k s Hk ->. rewrite Hrounds in Hk.
    rewrite (chan_in_succ c k) by lia.
    eapply eq_outcome; [|reflexivity].
    rewrite (level_half k) by exact Hk.
    pose proof (level_scale (k + 1) ltac:(lia)) as Hq.
    unfold level_shape. cbv zeta.
    apply ShapeRules.MaxPool3d_shape; nia.
  - intros x ->. rewrite Hrounds.
    eapply eq_outcome; [apply level_ConvMod; lia|reflexivity].
  - intros k u y s Hk Hu -> ->. rewrite Hrounds in Hk.
    eapply eq_outcome; [|reflexivity].
    rewrite !(level_half k) by exact Hk.
    pose proof (level_scale (k + 1) ltac:(lia)) as Hq.
    unfold level_shape. cbv zeta.
    eapply ShapeRules.UpsampleMod_shape;
      first [exact Hact | exact Hn | exact Hu | nia].
  - intros k u Hk ->. rewrite Hrounds in Hk.
    eapply eq_outcome; [apply level_ConvMod; lia|reflexivity].
  - intros y ->. unfold the_embed_out. rewrite Hstride. simpl py_eq_int.
    cbv iota.
    replace (if 0 <? cfg_depth c then chan c 0 else chan c (cfg_depth c))
      with (chan c 0).
    2: { destruct (0 <? cfg_depth c) eqn:H0; [reflexivity|].
         apply Z.ltb_ge in H0. f_equal. lia. }
    eapply eq_outcome; [|reflexivity].
    pose proof (level_scale 0 ltac:(lia)) as Hq.
    unfold level_shape. cbv zeta.
    apply ShapeRules.EmbeddingMod_shape; try exact Hact; nia.
  - intros z ->.
    eapply eq_outcome; [|reflexivity].
    pose proof (level_scale 0 ltac:(lia)) as Hq.
    unfold level_shape. cbv zeta.
    apply ShapeRules.OutputMod_shape; nia.
Qed.

End ShapePreserved.

(** C1, as stated, fails twice.  In its own concrete scenario,
    [init_stride=(1,1,1)] does not compare equal to [1], the output
    embedding is the transposed convolution with output padding [(0,1,1)]
    and stride 1, and torch rejects it (without that check the output
    would be [(1,3,16,65,65)]).  And with the int stride [1], an input whose
    extents are not multiples of [2^depth] does not come back in its shape:
    with [depth=1], [(1,1,3,4,4)] is pooled to [(1,8,1,2,2)], upsampled to
    [(1,8,2,4,4)], and cannot be added to the skip [(1,8,3,4,4)]. *)
Lemma C1_shape_is_not_always_preserved :
  shape_run 3 2 "bilinear" true (PSeq [1; 1; 1]) [8; 16; 32] "tvm"
    [1; 1; 16; 64; 64] =
    Err (RuntimeError "output padding must be smaller than stride") /\
  shape_run 3 1 "bilinear" true (PInt 1) [8; 16; 32] "tvm" [1; 1; 3; 4; 4] =
    Err (RuntimeError "tensor sizes must match").
Proof. split; vm_compute; reflexivity. Qed.

(** C1, amended: for every network that [RSUNet.__init__] returned with
    the int [init_stride=1] and [depth >= 0], and every shape-preserving
    activation, an input [(N,1,D,H,W)] whose extents are positive multiples
    of [2^depth], with more than one value per channel left at the bridge,
    yields an output [(N,aff,D,H,W)]. *)
Theorem C1_stride_1_preserves_divisible_shapes (aff depth : Z)
    (residual : bool) (upsample : string) (use_bn : bool) (momentum : Q)
    (track : bool) (act : list Z -> result (list Z)) (nf : list Z)
    (mode : string) (g g' : globals) (net : RSUNet (E := shape_engine))
    (N D H W : Z) :
  (forall s, act s = Ok s) ->
  RSUNet_init (E := shape_engine) aff depth residual upsample use_bn momentum
    track act (PInt 1) nf mode g = (Ok net, g') ->
  0 <= depth -> 0 < N -> 0 < D -> 0 < H -> 0 < W ->
  (2 ^ depth | D) -> (2 ^ depth | H) -> (2 ^ depth | W) ->
  1 < N * (D / 2 ^ depth) * (H / 2 ^ depth) * (W / 2 ^ depth) ->
  RSUNet_forward net [N; 1; D; H; W] = Ok [N; aff; D; H; W].
Proof.
  intros Hact Hinit Hdepth HN HD HH HW [d ->] [h ->] [w ->] Hvolume.
  assert (Hpow : 0 < 2 ^ depth) by (apply Z.pow_pos_nonneg; lia).
  rewrite !Z.div_mul in Hvolume by lia.
  set (c := @Build_config shape_engine aff depth residual upsample use_bn
              momentum track act (PInt 1) nf mode).
  destruct (build_ok c g net g' Hinit) as [_ Hb].
  pose proof (RSUNet_forward_level c net Hb eq_refl Hact Hdepth N d h w HN
                ltac:(nia) ltac:(nia) ltac:(nia) Hvolume) as Hrun.
  unfold level_shape in Hrun. simpl cfg_depth in Hrun. simpl cfg_aff in Hrun.
  cbv zeta in Hrun. rewrite Z.sub_0_r in Hrun.
  rewrite !(Z.mul_comm _ (2 ^ depth)). exact Hrun.
Qed.

(** The concrete scenario, with the int stride: [depth=2], schedule
    [(8,16,32)], 3 output channels, input [(1,1,16,64,64)]. *)
Lemma C1_witness :
  match shape_net 3 2 "bilinear" true (PInt 1) [8; 16; 32] "tvm" with
  | (Ok net, _) =>
    RSUNet_forward net [1; 1; 16; 64; 64] = Ok [1; 3; 16; 64; 64]
  | (Err _, _) => False
  end.
Proof.
  pose proof scenario_ok as Hok.
  destruct (shape_net 3 2 "bilinear" true (PInt 1) [8; 16; 32] "tvm")
    as [[net|e] g'] eqn:Hnet; [|discriminate Hok].
  apply (C1_stride_1_preserves_divisible_shapes 3 2 true "bilinear" true
           (1 # 1000) false Shape.elu [8; 16; 32] "tvm" initial_globals g'
           net 1 16 64 64); try lia; try reflexivity; try exact Hnet.
  - exists 4. reflexivity.
  - exists 16. reflexivity.
  - exists 16. reflexivity.
Defined.

(** ** Further properties of construction *)

Lemma upsample_known_iff mode :
  upsample_known mode = true <-> mode ∈ ["bilinear"; "nearest"; "transpose"].
Proof.
  split.
  - intros Hk. destruct (decide (mode ∈ ["bilinear"; "nearest"; "transpose"]))
      as [Hin|Hout]; [exact Hin|].
    rewrite (upsample_unknown _ Hout) in Hk. discriminate.
  - intros Hin. unfold upsample_known.
    repeat (apply elem_of_cons in Hin as [->|Hin]; [reflexivity|]).
    by apply elem_of_nil in Hin.
Qed.

Section Totality.

Context {E : Engine}.

Lemma mk_UpsampleMod_is_Some b cin cout up mode act use_bn momentum track :
  upsample_known mode = true ->
  exists u,
    mk_UpsampleMod b cin cout up mode act use_bn momentum track = Some u.
Proof.
  unfold upsample_known, mk_UpsampleMod.
  destruct (String.eqb mode "bilinear"); [eauto|].
  destruct (String.eqb mode "nearest"); [eauto|].
  destruct (String.eqb mode "transpose"); [eauto|discriminate].
Qed.

(** Expanding rounds over indices below the end of [sizes] and of the
    schedule all succeed, when batch normalisation is on and the upsampling
    mode is known. *)
Lemma expanding_rounds_succeed nf track act l self cin g :
  Forall (fun d => 0 <= d < 5 /\ d < py_len nf) l ->
  net_use_bn self = true ->
  upsample_known (net_upsample self) = true ->
  exists self' cin',
    foldMM (expanding_step nf track act) l (self, cin) g =
    (Ok (self', cin'), g).
Proof.
  intros Hl. revert self cin.
  induction Hl as [|d l [Hd5 Hdn] _ IH]; intros self cin Hbn Hup.
  - exists self, cin. reflexivity.
  - cbn [foldMM].
    destruct (py_index_in_range nf d) as [fs Hfs]; [lia|].
    destruct (py_index_in_range sizes d) as [ks Hks];
      [change (py_len sizes) with 5; lia|].
    destruct (py_index_sizes _ _ Hks) as [-> _].
    destruct (mk_UpsampleMod_is_Some (backend_of (MODE g)) cin fs (PInt 2)
                (net_upsample self) act (net_use_bn self) (net_momentum self)
                track Hup) as [u Hu].
    destruct (IH (add_module
                    (add_module self (format "upsample" d) (MUpsampleMod u))
                    (format "dconvmod" d)
                    (MConvMod (mk_ConvMod (backend_of (MODE g)) fs fs
                                 (PSeq [3; 3; 3]) [1; 1; 1] act
                                 (net_residual self) (net_momentum self)
                                 track)))
                fs Hbn Hup) as (self' & cin' & Hfold).
    exists self', cin'.
    erewrite bindM_ok; [exact Hfold|].
    rewrite expanding_step_eq, Hfs, Hks, Hu.
    change (pad_size (_triple (PSeq [3; 3; 3])) "same") with (Ok [1; 1; 1]).
    cbv iota beta. rewrite Hbn. reflexivity.
Qed.

Lemma contracting_rounds_keep nf track act l self cin g self' cin' :
  foldMM (contracting_step nf track act) l (self, cin) g =
    (Ok (self', cin'), g) ->
  net_upsample self' = net_upsample self.
Proof.
  revert self cin. induction l as [|d l IH]; intros self cin Hfold.
  - cbn [foldMM] in Hfold. unfold retM in Hfold. congruence.
  - cbn [foldMM] in Hfold. unfold bindM in Hfold.
    rewrite contracting_step_eq in Hfold.
    destruct (py_index nf d); [|discriminate].
    destruct (py_index sizes d); [|discriminate].
    destruct (pad_size _ _); [|discriminate].
    destruct (net_use_bn self); [|discriminate].
    apply IH in Hfold. exact Hfold.
Qed.

Lemma reversed_range_bounds depth :
  Forall (fun d => 0 <= d < depth) (reversed_range depth).
Proof.
  apply Forall_forall. intros d Hd.
  apply list_elem_of_In in Hd. unfold reversed_range, range in Hd.
  apply in_rev, in_map_iff in Hd as (k & <- & Hk). apply in_seq in Hk. lia.
Qed.

Lemma RSUNet_init_returns aff depth residual upsample momentum track act
    stride nf mode g :
  0 <= depth -> depth < py_len nf -> depth < 5 ->
  (0 < depth -> upsample_known upsample = true) ->
  exists net,
    RSUNet_init aff depth residual upsample true momentum track act stride nf
      mode g = (Ok net, {| MODE := mode |}).
Proof.
  intros H0 Hlen H5 Hup.
  unfold RSUNet_init.
  rewrite (bindM_ok _ _ g tt {| MODE := mode |}) by reflexivity.
  set (G := {| MODE := mode |}).
  assert (Hlt : (depth <? py_len nf) = true) by (apply Z.ltb_lt; lia).
  rewrite (bindM_ok _ _ G tt G) by (unfold liftM; rewrite Hlt; reflexivity).
  erewrite (bindM_ok _ _ G);
    [|rewrite EmbeddingMod_init_eq;
      change (pad_size embed_ks "same") with (Ok [0; 2; 2]); reflexivity].
  set (self0 := add_module _ "embed_in" _).
  destruct (contracting_rounds_succeed nf track act (Z.to_nat depth) 0 self0
              embed_nin G) as (self1 & cin1 & Hdown & Hbn1);
    [lia|unfold py_len in Hlen; lia|reflexivity|].
  pose proof (contracting_rounds_keep _ _ _ _ _ _ _ _ _ Hdown) as Hkeep.
  unfold range. rewrite (bindM_ok _ _ _ _ _ Hdown).
  destruct (py_index_in_range nf depth) as [fs Hfs]; [lia|].
  destruct (py_index_in_range sizes depth) as [ks Hks];
    [change (py_len sizes) with 5; lia|].
  destruct (py_index_sizes _ _ Hks) as [-> _].
  rewrite (bindM_ok _ _ G fs G) by (unfold liftM; rewrite Hfs; reflexivity).
  rewrite (bindM_ok _ _ G (PSeq [3; 3; 3]) G)
    by (unfold liftM; rewrite Hks; reflexivity).
  erewrite (bindM_ok _ _ G);
    [|unfold add_conv_mod; erewrite bindM_ok;
      [reflexivity
      |rewrite ConvMod_init_eq;
       change (pad_size (_triple (PSeq [3; 3; 3])) "same")
         with (Ok [1; 1; 1]);
       cbv iota beta; rewrite Hbn1; reflexivity]].
  set (self2 := add_module self1 _ _).
  destruct (reversed_range depth) as [|d0 l0] eqn:Hrev.
  - cbn [foldMM]. rewrite (bindM_ok _ _ G _ G) by reflexivity.
    destruct (py_eq_int stride 1).
    + erewrite (bindM_ok _ _ G);
        [|erewrite bindM_ok;
          [reflexivity
          |rewrite EmbeddingMod_init_eq;
           change (pad_size embed_ks "same") with (Ok [0; 2; 2]);
           reflexivity]].
      erewrite bindM_ok; [|apply OutputMod_init_eq]. eauto.
    + erewrite (bindM_ok _ _ G);
        [|erewrite bindM_ok;
          [reflexivity
          |rewrite EmbeddingModUP_init_eq;
           change (pad_size embed_ks "same") with (Ok [0; 2; 2]);
           reflexivity]].
      erewrite bindM_ok; [|apply OutputMod_init_eq]. eauto.
  - assert (Hpos : 0 < depth).
    { pose proof (reversed_range_bounds depth) as Hb. rewrite Hrev in Hb.
      apply Forall_cons in Hb as [Hb _]. lia. }
    destruct (expanding_rounds_succeed nf track act (d0 :: l0) self2 fs G)
      as (self3 & cin3 & Hupfold).
    + rewrite <- Hrev. eapply Forall_impl; [apply reversed_range_bounds|].
      simpl. intros d Hd. lia.
    + exact Hbn1.
    + subst self2. simpl. rewrite Hkeep. simpl. apply Hup, Hpos.
    + rewrite (bindM_ok _ _ _ _ _ Hupfold).
      destruct (py_eq_int stride 1).
      * erewrite (bindM_ok _ _ G);
          [|erewrite bindM_ok;
            [reflexivity
            |rewrite EmbeddingMod_init_eq;
             change (pad_size embed_ks "same") with (Ok [0; 2; 2]);
             reflexivity]].
        erewrite bindM_ok; [|apply OutputMod_init_eq]. eauto.
      * erewrite (bindM_ok _ _ G);
          [|erewrite bindM_ok;
            [reflexivity
            |rewrite EmbeddingModUP_init_eq;
             change (pad_size embed_ks "same") with (Ok [0; 2; 2]);
             reflexivity]].
        erewrite bindM_ok; [|apply OutputMod_init_eq]. eauto.
Qed.

End Totality.



(** X2: a [depth] that is not below the length of the schedule fails the
    assertion of [__init__], whatever the other arguments. *)
Theorem depth_not_below_length_is_rejected {E : Engine} (aff depth : Z)
    (residual : bool) (upsample : string) (use_bn : bool) (momentum : Q)
    (track : bool) (act : tensor -> result tensor) (stride : pyval)
    (nf : list Z) (mode : string) (g : globals) :
  py_len nf <= depth ->
  RSUNet_init aff depth residual upsample use_bn momentum track act stride nf
    mode g =
  (Err (AssertionError "depth < len(nfeatures)"), {| MODE := mode |}).
Proof.
  intros Hlen. unfold RSUNet_init.
  rewrite (bindM_ok _ _ g tt {| MODE := mode |}) by reflexivity.
  apply bindM_err. unfold liftM, assert.
  replace (depth <? py_len nf) with false
    by (symmetry; apply Z.ltb_ge; lia).
  reflexivity.
Qed.

Lemma depth_not_below_length_is_rejected_witness :
  py_len [8; 16; 32] <= 3 /\
  RSUNet_init (E := shape_engine) 3 3 true "bilinear" true (1 # 1000) false
    Shape.elu init_stride [8; 16; 32] "tvm" initial_globals =
  (Err (AssertionError "depth < len(nfeatures)"), {| MODE := "tvm" |}).
Proof.
  split; [vm_compute; discriminate|].
  apply (depth_not_below_length_is_rejected (E := shape_engine)).
  vm_compute. discriminate.
Defined.

(** X3, [pad_size]: ['valid'] gives three zeros whatever the kernel; ['full']
    gives [k - 1] per axis; ['same'] gives [(k - 1) / 2] per axis when every
    [k] is odd and fails its assertion otherwise; any other mode fails the
    first assertion. *)
Theorem pad_size_modes (ks : list Z) :
  pad_size (PSeq ks) "valid" = Ok [0; 0; 0] /\
  pad_size (PSeq ks) "full" = Ok (map (fun k => k - 1) ks) /\
  pad_size (PSeq ks) "same" =
    (if forallb Z.odd ks then Ok (map (fun k => (k - 1) / 2) ks)
     else Err (AssertionError "all([x % 2 for x in ks])")) /\
  forall mode,
    mode ∉ ["valid"; "same"; "full"] ->
    pad_size (PSeq ks) mode =
    Err (AssertionError "mode in ['valid', 'same', 'full']").
Proof.
  split; [reflexivity|]. split; [reflexivity|]. split.
  - unfold pad_size. cbn [assert bind py_iter _triple _ntuple].
    change (bool_decide ("same" ∈ ["valid"; "same"; "full"])) with true.
    cbn [assert bind String.eqb Ascii.eqb Bool.eqb andb].
    induction ks as [|k ks IH]; [reflexivity|].
    cbn [forallb map].
    assert (Hodd : negb (k mod 2 =? 0) = Z.odd k).
    { rewrite Zmod_odd. destruct (Z.odd k); reflexivity. }
    rewrite Hodd. destruct (Z.odd k) eqn:Hk; [|reflexivity].
    cbn [andb]. destruct (forallb Z.odd ks);
      destruct (forallb _ ks); try discriminate IH; [|reflexivity].
    cbn [assert bind] in IH |- *. injection IH as IH. rewrite IH.
    do 2 f_equal.
    apply Zodd_bool_iff, Zodd_ex in Hk as [m ->].
    replace (2 * m + 1 - 1) with (m * 2) by lia.
    rewrite Z.div_mul by lia.
    rewrite Z.add_comm, Z.mul_comm, Z.div_add by lia. reflexivity.
  - intros mode Hmode. unfold pad_size.
    rewrite bool_decide_eq_false_2 by exact Hmode. reflexivity.
Qed.

(** X4: the rule [__init__] really follows for the output embedding: the
    network it returns holds, under the name [embed_out], a plain
    [EmbeddingMod] of stride 1 exactly when [init_stride] is the int [1],
    and otherwise (every tuple included) an [EmbeddingModUP] of stride
    [init_stride] and output padding [(0,1,1)]. *)
Theorem embed_out_follows_int_comparison {E : Engine} (aff depth : Z)
    (residual : bool) (upsample : string) (use_bn : bool) (momentum : Q)
    (track : bool) (act : tensor -> result tensor) (stride : pyval)
    (nf : list Z) (mode : string) (g g' : globals) (net : RSUNet) :
  RSUNet_init aff depth residual upsample use_bn momentum track act stride nf
    mode g = (Ok net, g') ->
  exists cin,
    getattr net "embed_out" =
    Ok (match stride with
        | PInt 1 =>
          MEmbeddingMod (mk_EmbeddingMod (backend_of mode) cin embed_nout
                           embed_ks [0; 2; 2] act (PInt 1))
        | _ =>
          MEmbeddingModUP (mk_EmbeddingModUP cin embed_nout embed_ks
                             [0; 2; 2] act stride)
        end).
Proof.
  intros Hinit.
  set (c := {| cfg_aff := aff; cfg_depth := depth;
               cfg_residual := residual; cfg_upsample := upsample;
               cfg_use_bn := use_bn; cfg_momentum := momentum;
               cfg_track := track; cfg_activation := act;
               cfg_init_stride := stride; cfg_nfeatures := nf;
               cfg_mode := mode |}).
  destruct (build_ok c g net g' Hinit) as [_ Hb].
  rewrite (getattr_embed_out c net Hb). unfold the_embed_out. simpl.
  eexists. f_equal.
  destruct stride as [z|l]; simpl; [|reflexivity].
  destruct (z =? 1) eqn:Hz.
  - apply Z.eqb_eq in Hz. subst z. reflexivity.
  - apply Z.eqb_neq in Hz. destruct z as [|[p|p|]|p]; try reflexivity.
    congruence.
Qed.

Lemma embed_out_follows_int_comparison_witness :
  match shape_net 3 2 "bilinear" true (PSeq [1; 1; 1]) [8; 16; 32] "tvm" with
  | (Ok net, _) =>
    exists cin,
      getattr net "embed_out" =
      Ok (MEmbeddingModUP
            (mk_EmbeddingModUP (E := shape_engine) cin embed_nout embed_ks
               [0; 2; 2] Shape.elu (PSeq [1; 1; 1])))
  | (Err _, _) => False
  end.
Proof.
  assert (Hok : is_ok (fst (shape_net 3 2 "bilinear" true (PSeq [1; 1; 1])
                              [8; 16; 32] "tvm")) = true)
    by (vm_compute; reflexivity).
  destruct (shape_net 3 2 "bilinear" true (PSeq [1; 1; 1]) [8; 16; 32] "tvm")
    as [[net|e] g'] eqn:Hnet; [|discriminate Hok].
  exact (embed_out_follows_int_comparison (E := shape_engine) 3 2 true
           "bilinear" true (1 # 1000) false Shape.elu (PSeq [1; 1; 1])
           [8; 16; 32] "tvm" initial_globals g' net Hnet).
Defined.

(** ** Construction: what makes it fail, and edge cases *)

Lemma range_cons depth :
  1 <= depth ->
  range depth = 0 :: map Z.of_nat (seq 1 (Z.to_nat depth - 1)).
Proof.
  intros Hd. unfold range.
  replace (Z.to_nat depth) with (S (Z.to_nat depth - 1)) at 1 by lia.
  reflexivity.
Qed.

Lemma reversed_range_cons depth :
  1 <= depth ->
  reversed_range depth = (depth - 1) :: reversed_range (depth - 1).
Proof.
  intros Hd. unfold reversed_range, range.
  replace (Z.to_nat depth) with (S (Z.to_nat (depth - 1))) by lia.
  rewrite rev_range_S. f_equal. lia.
Qed.

Lemma py_index_negative {A : Type} (l : list A) i :
  - py_len l <= i < 0 -> exists a, py_index l i = Ok a.
Proof.
  intros Hi. unfold py_index.
  replace (i <? 0) with true by (symmetry; apply Z.ltb_lt; lia).
  replace ((0 <=? i + py_len l) && (i + py_len l <? py_len l)) with true
    by (symmetry; apply andb_true_iff; split;
        [apply Z.leb_le|apply Z.ltb_lt]; lia).
  unfold py_len in *.
  destruct (lookup_lt_is_Some_2 l (Z.to_nat (i + Z.of_nat (length l))))
    as [a Ha]; [lia|].
  exists a. rewrite Ha. reflexivity.
Qed.

(** X5: with [use_bn=False] no network can be constructed: for every
    [depth] the assertion accepts (from 0 on), construction stops at the
    first [ConvMod], whose [Conv] blocks are asked for a bias they never
    create. *)
Theorem no_network_without_batchnorm {E : Engine} (aff depth : Z)
    (residual : bool) (upsample : string) (momentum : Q) (track : bool)
    (act : tensor -> result tensor) (stride : pyval) (nf : list Z)
    (mode : string) (g : globals) :
  0 <= depth -> depth < py_len nf ->
  RSUNet_init aff depth residual upsample false momentum track act stride nf
    mode g = (Err (AttributeError "fill_"), {| MODE := mode |}).
Proof.
  intros H0 Hlen. unfold RSUNet_init.
  rewrite (bindM_ok _ _ g tt {| MODE := mode |}) by reflexivity.
  set (G := {| MODE := mode |}).
  assert (Hlt : (depth <? py_len nf) = true) by (apply Z.ltb_lt; lia).
  rewrite (bindM_ok _ _ G tt G) by (unfold liftM; rewrite Hlt; reflexivity).
  erewrite (bindM_ok _ _ G);
    [|rewrite EmbeddingMod_init_eq;
      change (pad_size embed_ks "same") with (Ok [0; 2; 2]); reflexivity].
  destruct (py_index_in_range nf 0) as [fs Hfs]; [lia|].
  destruct (decide (depth = 0)) as [->|Hpos].
  - change (range 0) with (@nil Z). cbn [foldMM].
    rewrite (bindM_ok _ _ G _ G) by reflexivity. cbv beta iota.
    rewrite (bindM_ok _ _ G fs G) by (unfold liftM; rewrite Hfs; reflexivity).
    rewrite (bindM_ok _ _ G (PSeq [3; 3; 3]) G) by reflexivity.
    apply bindM_err. unfold add_conv_mod. apply bindM_err.
    rewrite ConvMod_init_eq. reflexivity.
  - rewrite range_cons by lia. cbn [foldMM].
    apply bindM_err. apply bindM_err.
    rewrite contracting_step_eq, Hfs. reflexivity.
Qed.

Lemma no_network_without_batchnorm_witness :
  0 <= 2 /\ 2 < py_len [8; 16; 32] /\
  RSUNet_init (E := shape_engine) 3 2 true "bilinear" false (1 # 1000) false
    Shape.elu init_stride [8; 16; 32] "tvm" initial_globals =
  (Err (AttributeError "fill_"), {| MODE := "tvm" |}).
Proof.
  split; [lia|]. split; [reflexivity|].
  apply (no_network_without_batchnorm (E := shape_engine));
    [lia|reflexivity].
Defined.

Lemma mk_UpsampleMod_unknown {E : Engine} b cin cout up mode act use_bn
    momentum track :
  upsample_known mode = false ->
  mk_UpsampleMod b cin cout up mode act use_bn momentum track = None.
Proof.
  unfold upsample_known, mk_UpsampleMod.
  destruct (String.eqb mode "bilinear"); [discriminate|].
  destruct (String.eqb mode "nearest"); [discriminate|].
  destruct (String.eqb mode "transpose"); [discriminate|reflexivity].
Qed.





(** ** The modules on their own *)

Lemma odd_mod2 k : negb (k mod 2 =? 0) = Z.odd k.
Proof. rewrite Zmod_odd. destruct (Z.odd k); reflexivity. Qed.

Lemma odd_half k : Z.odd k = true -> k = 2 * (k / 2) + 1.
Proof.
  intros Hk. pose proof (Z.div_mod k 2 ltac:(lia)) as Hdm.
  rewrite Zmod_odd, Hk in Hdm. exact Hdm.
Qed.

Lemma pad_size_same3 kd kh kw :
  pad_size (PSeq [kd; kh; kw]) "same" =
  if Z.odd kd && Z.odd kh && Z.odd kw then Ok [kd / 2; kh / 2; kw / 2]
  else Err (AssertionError "all([x % 2 for x in ks])").
Proof.
  unfold pad_size. cbn [assert bind py_iter _triple _ntuple].
  change (bool_decide ("same" ∈ ["valid"; "same"; "full"])) with true.
  cbn [assert bind String.eqb Ascii.eqb Bool.eqb andb forallb map].
  rewrite !odd_mod2.
  destruct (Z.odd kd), (Z.odd kh), (Z.odd kw); reflexivity.
Qed.

Lemma triple_ntuple ks kd kh kw :
  Shape.triple ks = Ok (kd, kh, kw) -> _triple ks = PSeq [kd; kh; kw].
Proof.
  destruct ks as [k|[|a [|b [|c [|? ?]]]]]; simpl; intros H;
    try discriminate H; injection H as <- <- <-; reflexivity.
Qed.

Section ModulesAlone.

#[local] Existing Instance shape_engine.

Variable act : list Z -> result (list Z).
Hypothesis Hact : forall s, act s = Ok s.

Variables n d h w : Z.
Hypothesis Hd : 0 < d.
Hypothesis Hh : 0 < h.
Hypothesis Hw : 0 < w.

Lemma ConvMod_shape_odd b cin cout kd kh kw residual momentum track :
  0 < kd -> 0 < kh -> 0 < kw ->
  Z.odd kd = true -> Z.odd kh = true -> Z.odd kw = true ->
  1 < n * d * h * w ->
  ConvMod_forward
    (mk_ConvMod b cin cout (PSeq [kd; kh; kw]) [kd / 2; kh / 2; kw / 2] act
       residual momentum track) [n; cin; d; h; w] =
  Ok [n; cout; d; h; w].
Proof.
  intros Hkd Hkh Hkw Hod Hoh How Hn.
  pose proof (odd_half _ Hod). pose proof (odd_half _ Hoh).
  pose proof (odd_half _ How).
  assert (0 <= kd / 2) by (apply Z.div_pos; lia).
  assert (0 <= kh / 2) by (apply Z.div_pos; lia).
  assert (0 <= kw / 2) by (apply Z.div_pos; lia).
  assert (Hconv : forall b' ci co,
    Conv_forward (mk_Conv b' ci co (PSeq [kd; kh; kw]) (PSeq [1; 1; 1])
                    (PSeq [kd / 2; kh / 2; kw / 2])) [n; ci; d; h; w] =
    Ok [n; co; d; h; w]).
  { intros b' ci co. unfold Conv_forward, mk_Conv.
    cbn [conv_conv conv3d shape_engine].
    erewrite ShapeRules.conv3d_same;
      first [reflexivity | eassumption | idtac]. }
  unfold ConvMod_forward, residual_sum, norm_call, mk_ConvMod, mk_bn.
  cbn [cm_conv1 cm_conv2 cm_conv3 cm_bn1 cm_bn2 cm_bn3 cm_activation
       cm_residual batch_norm3d tensor_add shape_engine].
  rewrite !Hconv. cbn [bind].
  rewrite ShapeRules.batch_norm3d_same by first [reflexivity | lia].
  cbn [bind]. rewrite Hact. cbn [bind]. rewrite Hconv. cbn [bind].
  rewrite ShapeRules.batch_norm3d_same by first [reflexivity | lia].
  cbn [bind]. rewrite Hact. cbn [bind]. rewrite Hconv. cbn [bind].
  destruct residual; [rewrite ShapeRules.tensor_add_same|]; cbn [bind];
    rewrite ShapeRules.batch_norm3d_same by first [reflexivity | lia];
    cbn [bind]; apply Hact.
Qed.

End ModulesAlone.



Lemma conv_transpose_out_scale d a :
  0 < d -> 0 < a -> Shape.conv_transpose_out d a a 0 0 = Ok (a * d).
Proof.
  intros Hd Ha. unfold Shape.conv_transpose_out.
  replace (0 <? a) with true by (symmetry; apply Z.ltb_lt; lia).
  cbn [andb orb]. cbv zeta.
  replace ((d - 1) * a - 2 * 0 + (a - 1) + 0 + 1) with (a * d) by lia.
  replace (0 <? a * d) with true by (symmetry; apply Z.ltb_lt; nia).
  reflexivity.
Qed.

Lemma upsample_scale up a b c mode n ch d h w :
  Shape.triple up = Ok (a, b, c) ->
  0 < a -> 0 < b -> 0 < c -> 0 < d -> 0 < h -> 0 < w ->
  Shape.upsample up mode [n; ch; d; h; w] = Ok [n; ch; a * d; b * h; c * w].
Proof.
  intros Hup Ha Hb Hc Hd Hh Hw. unfold Shape.upsample. rewrite Hup.
  cbn [bind].
  replace ((0 <? a * d) && (0 <? b * h) && (0 <? c * w)) with true;
    [reflexivity|].
  symmetry. rewrite !andb_true_iff, !Z.ltb_lt. nia.
Qed.



(** ** The shapes a network accepts *)

Lemma pool_out_2 d :
  Shape.pool_out d 2 =
  if 0 <? d / 2 then Ok (d / 2)
  else Err (RuntimeError "output size is too small").
Proof.
  unfold Shape.pool_out. simpl (0 <? 2). cbv iota zeta.
  replace ((d - 2) / 2 + 1) with (d / 2); [reflexivity|].
  replace (d - 2) with (d + (-1) * 2) by lia.
  rewrite Z.div_add by lia. lia.
Qed.

Lemma div_pow_succ D k : 0 <= k -> D / 2 ^ k / 2 = D / 2 ^ (k + 1).
Proof.
  intros Hk. assert (0 < 2 ^ k) by (apply Z.pow_pos_nonneg; lia).
  rewrite Z.div_div by lia.
  rewrite Z.pow_add_r, Z.pow_1_r by lia. reflexivity.
Qed.

Lemma div_pow_0 D : D / 2 ^ 0 = D.
Proof. rewrite Z.pow_0_r. apply Z.div_1_r. Qed.

Section ModuleOutcomes.

#[local] Existing Instance shape_engine.

Variable act : list Z -> result (list Z).
Hypothesis Hact : forall s, act s = Ok s.

Lemma ConvMod_outcome b cin cout residual momentum track n d h w :
  0 < d -> 0 < h -> 0 < w ->
  outcome
    (call (E := shape_engine)
       (MConvMod (mk_ConvMod b cin cout (PSeq [3; 3; 3]) [1; 1; 1] act
                    residual momentum track)) [[n; cin; d; h; w]])
    (fun y => y = [n; cout; d; h; w] /\ 1 < n * d * h * w)
    (fun _ => True).
Proof.
  intros Hd Hh Hw.
  destruct (Z.ltb_spec 1 (n * d * h * w)) as [Hn|Hn].
  - rewrite ShapeRules.ConvMod_shape by assumption. simpl. auto.
  - unfold call, ConvMod_forward, Conv_forward, norm_call, mk_ConvMod,
      mk_Conv, mk_bn.
    cbn [cm_conv1 cm_bn1 conv_conv conv3d batch_norm3d shape_engine].
    erewrite ShapeRules.conv3d_same by first [reflexivity | lia].
    cbn [bind c_out]. unfold Shape.batch_norm3d at 1.
    cbn [bn_features]. rewrite Z.eqb_refl.
    replace (1 <? n * d * h * w) with false
      by (symmetry; apply Z.ltb_ge; lia).
    exact I.
Qed.

Lemma MaxPool3d_outcome n ch d h w :
  outcome (call (E := shape_engine) (MMaxPool3d (PInt 2)) [[n; ch; d; h; w]])
    (fun y => y = [n; ch; d / 2; h / 2; w / 2] /\
              0 < d / 2 /\ 0 < h / 2 /\ 0 < w / 2)
    (fun _ => True).
Proof.
  unfold call. cbn [max_pool3d shape_engine]. unfold Shape.max_pool3d.
  cbn [Shape.triple bind]. rewrite !pool_out_2.
  destruct (Z.ltb_spec 0 (d / 2)); [|exact I].
  destruct (Z.ltb_spec 0 (h / 2)); [|exact I].
  destruct (Z.ltb_spec 0 (w / 2)); [|exact I].
  simpl. auto.
Qed.

Lemma tensor_add_outcome n ch x1 x2 x3 y1 y2 y3 :
  1 < x1 -> 1 < x2 -> 1 < x3 -> 1 < y1 -> 1 < y2 -> 1 < y3 ->
  outcome (Shape.tensor_add [n; ch; x1; x2; x3] [n; ch; y1; y2; y3])
    (fun r => r = [n; ch; y1; y2; y3] /\ x1 = y1 /\ x2 = y2 /\ x3 = y3)
    (fun _ => True).
Proof.
  intros Hx1 Hx2 Hx3 Hy1 Hy2 Hy3.
  unfold Shape.tensor_add. cbn [rev app Shape.broadcast_rev bind].
  rewrite !Z.eqb_refl. cbn [bind].
  replace (x1 =? 1) with false by (symmetry; apply Z.eqb_neq; lia).
  replace (x2 =? 1) with false by (symmetry; apply Z.eqb_neq; lia).
  replace (x3 =? 1) with false by (symmetry; apply Z.eqb_neq; lia).
  replace (y1 =? 1) with false by (symmetry; apply Z.eqb_neq; lia).
  replace (y2 =? 1) with false by (symmetry; apply Z.eqb_neq; lia).
  replace (y3 =? 1) with false by (symmetry; apply Z.eqb_neq; lia).
  destruct (Z.eqb_spec x1 y1) as [->|]; [|exact I]. cbn [bind].
  destruct (Z.eqb_spec x2 y2) as [->|]; [|exact I]. cbn [bind].
  destruct (Z.eqb_spec x3 y3) as [->|]; [|exact I].
  simpl. auto.
Qed.

Lemma UpsampleMod_outcome b cin cout mode momentum track u n a1 a2 a3
    d h w :
  mk_UpsampleMod b cin cout (PInt 2) mode act true momentum track = Some u ->
  0 < a1 -> 0 < a2 -> 0 < a3 -> 1 < d -> 1 < h -> 1 < w ->
  outcome
    (call (E := shape_engine) (MUpsampleMod u)
       [[n; cin; a1; a2; a3]; [n; cout; d; h; w]])
    (fun y => y = [n; cout; d; h; w] /\
              d = 2 * a1 /\ h = 2 * a2 /\ w = 2 * a3 /\
              1 < n * d * h * w)
    (fun _ => True).
Proof.
  intros Hu Ha1 Ha2 Ha3 Hd Hh Hw.
  assert (Hup : outcome
    (let* x := up_call (um_up u) [n; cin; a1; a2; a3] in
     conv_or_id_call (um_conv u) x)
    (fun x => x = [n; cout; 2 * a1; 2 * a2; 2 * a3]) (fun _ => True)).
  { unfold mk_UpsampleMod in Hu.
    destruct (String.eqb mode "bilinear");
      [|destruct (String.eqb mode "nearest");
        [|destruct (String.eqb mode "transpose"); [|discriminate]]];
      injection Hu as <-;
      unfold up_call, conv_or_id_call, ConvT_forward, Conv_forward, mk_Conv,
        mk_ConvT;
      cbn [um_up um_conv conv_conv convt_conv conv3d conv_transpose3d
           upsample shape_engine].
    - rewrite ShapeRules.upsample_double by assumption. cbn [bind].
      erewrite ShapeRules.conv3d_same by first [reflexivity | lia].
      reflexivity.
    - rewrite ShapeRules.upsample_double by assumption. cbn [bind].
      erewrite ShapeRules.conv3d_same by first [reflexivity | lia].
      reflexivity.
    - rewrite ShapeRules.conv_transpose3d_double
        by first [reflexivity | assumption].
      reflexivity. }
  assert (Hbn : um_bn u = mk_bn cout momentum track /\ um_activation u = act).
  { unfold mk_UpsampleMod in Hu.
    destruct (String.eqb mode "bilinear");
      [|destruct (String.eqb mode "nearest");
        [|destruct (String.eqb mode "transpose"); [|discriminate]]];
      injection Hu as <-; split; reflexivity. }
  destruct Hbn as [Hbn Hua].
  unfold call, UpsampleMod_forward.
  destruct (up_call (um_up u) _) as [x|e]; [|exact I].
  cbn [bind] in Hup |- *.
  destruct (conv_or_id_call (um_conv u) x) as [x'|e]; [|exact I].
  simpl in Hup. subst x'. cbn [bind tensor_add shape_engine].
  pose proof (tensor_add_outcome n cout (2 * a1) (2 * a2) (2 * a3) d h w
                ltac:(lia) ltac:(lia) ltac:(lia) Hd Hh Hw) as Hadd.
  destruct (Shape.tensor_add _ _) as [r|e]; [|exact I].
  simpl in Hadd. destruct Hadd as (-> & <- & <- & <-).
  cbn [bind]. rewrite Hbn, Hua. unfold norm_call, mk_bn.
  cbn [batch_norm3d shape_engine]. unfold Shape.batch_norm3d.
  cbn [bn_features]. rewrite Z.eqb_refl.
  destruct (Z.ltb_spec 1 (n * (2 * a1) * (2 * a2) * (2 * a3))); [|exact I].
  cbn [bind]. rewrite Hact. simpl. auto.
Qed.

End ModuleOutcomes.

Lemma restored_bridge depth n D H W :
  0 < D / 2 ^ depth -> 0 < H / 2 ^ depth -> 0 < W / 2 ^ depth ->
  1 < n * (D / 2 ^ depth) * (H / 2 ^ depth) * (W / 2 ^ depth) ->
  restored depth n D H W depth.
Proof.
  intros HD HH HW Hv. unfold restored.
  rewrite Z.sub_diag, Z.pow_0_r, !Z.mul_1_l. tauto.
Qed.

Lemma restored_pos depth n D H W k :
  0 <= k <= depth -> restored depth n D H W k ->
  0 < D / 2 ^ k /\ 0 < H / 2 ^ k /\ 0 < W / 2 ^ k.
Proof.
  intros Hk (HD & HH & HW & HpD & HpH & HpW & _).
  assert (0 < 2 ^ (depth - k)) by (apply Z.pow_pos_nonneg; lia).
  rewrite HD, HH, HW. repeat split; apply Z.mul_pos_pos; assumption.
Qed.

Lemma restored_step depth n D H W k :
  0 <= k < depth -> restored depth n D H W (k + 1) ->
  D / 2 ^ k = 2 * (D / 2 ^ (k + 1)) ->
  H / 2 ^ k = 2 * (H / 2 ^ (k + 1)) ->
  W / 2 ^ k = 2 * (W / 2 ^ (k + 1)) ->
  restored depth n D H W k.
Proof.
  intros Hk (HD & HH & HW & Hrest) ED EH EW. unfold restored.
  rewrite ED, EH, EW, HD, HH, HW, (pow_level depth k Hk), !Z.mul_assoc.
  tauto.
Qed.

Lemma restored_accepted depth n D H W :
  0 <= depth -> restored depth n D H W 0 -> accepted depth n D H W.
Proof.
  intros Hdepth Hr.
  destruct (restored_pos depth n D H W 0 ltac:(lia) Hr) as (HpD & HpH & HpW).
  destruct Hr as (HD & HH & HW & _ & _ & _ & Hv).
  rewrite !div_pow_0 in *. rewrite Z.sub_0_r in *.
  unfold accepted. repeat split; try assumption.
  - exists (D / 2 ^ depth). lia.
  - exists (H / 2 ^ depth). lia.
  - exists (W / 2 ^ depth). lia.
Qed.

Section ForwardNeedsEmbedding.

Context {E : Engine}.

Variable c : config.
Variable net : RSUNet.
Hypothesis Hbuilt : built c net.

Lemma forward_needs_embed_in x y :
  RSUNet_forward net x = Ok y ->
  exists x1,
    call (MEmbeddingMod
            (mk_EmbeddingMod (backend_of (cfg_mode c)) 1 embed_nin embed_ks
               [0; 2; 2] (cfg_activation c) (cfg_init_stride c))) [x] =
    Ok x1.
Proof.
  unfold RSUNet_forward. rewrite (getattr_embed_in c net Hbuilt).
  cbn [bind]. destruct (call _ [x]) as [x1|e]; [eauto|discriminate].
Qed.

End ForwardNeedsEmbedding.

Section ShapeAccepted.

#[local] Existing Instance shape_engine.

Variable c : config.
Variable net : RSUNet.
Hypothesis Hbuilt : built c net.
Hypothesis Hact : forall s, cfg_activation c s = Ok s.
Hypothesis Hdepth : 0 <= cfg_depth c.

(** The batch size, the extents the input embedding leaves and those the
    output embedding makes of them. *)
Variables N D0 H0 W0 Dz Hz Wz : Z.
Variable x0 : list Z.

Hypothesis embed_in_outcome :
  outcome
    (call (MEmbeddingMod
             (mk_EmbeddingMod (backend_of (cfg_mode c)) 1 embed_nin embed_ks
                [0; 2; 2] (cfg_activation c) (cfg_init_stride c))) [x0])
    (fun x => x = [N; embed_nin; D0; H0; W0] /\ 0 < D0 /\ 0 < H0 /\ 0 < W0)
    (fun _ => True).
Hypothesis embed_out_outcome :
  0 < D0 -> 0 < H0 -> 0 < W0 ->
  outcome (call (the_embed_out c) [[N; chan c 0; D0; H0; W0]])
    (fun z => z = [N; embed_nout; Dz; Hz; Wz] /\ 0 < Dz /\ 0 < Hz /\ 0 < Wz)
    (fun _ => True).

Lemma RSUNet_forward_outcome :
  outcome (RSUNet_forward net x0)
    (fun y => y = [N; cfg_aff c; Dz; Hz; Wz] /\
              accepted (cfg_depth c) N D0 H0 W0)
    (fun _ => True).
Proof.
  assert (Hrounds : rounds c = cfg_depth c) by (unfold rounds; lia).
  apply (forward_rule c net Hbuilt
           (fun k x => x = pooled_shape N D0 H0 W0 k (chan_in c k) /\
                       0 < D0 / 2 ^ k /\ 0 < H0 / 2 ^ k /\ 0 < W0 / 2 ^ k)
           (fun k s => s = pooled_shape N D0 H0 W0 k (chan c k) /\
                       0 < D0 / 2 ^ k /\ 0 < H0 / 2 ^ k /\ 0 < W0 / 2 ^ k)
           (fun k y => y = pooled_shape N D0 H0 W0 k (chan c k) /\
                       restored (cfg_depth c) N D0 H0 W0 k)
           (fun k u => u = pooled_shape N D0 H0 W0 k (chan c k) /\
                       restored (cfg_depth c) N D0 H0 W0 k)
           (fun x => x = x0)
           (fun z => z = [N; embed_nout; Dz; Hz; Wz] /\
                     (0 < Dz /\ 0 < Hz /\ 0 < Wz) /\
                     restored (cfg_depth c) N D0 H0 W0 0)
           (fun y => y = [N; cfg_aff c; Dz; Hz; Wz] /\
                     accepted (cfg_depth c) N D0 H0 W0)
           (fun _ => True)); [| | | | | | | |reflexivity].
  - intros x ->.
    eapply outcome_mono; [exact embed_in_outcome| |auto].
    intros x (-> & Hpos). unfold pooled_shape. rewrite !div_pow_0.
    split; [reflexivity|exact Hpos].
  - intros k x Hk (-> & HpD & HpH & HpW).
    unfold the_ConvMod, pooled_shape.
    eapply outcome_mono;
      [apply ConvMod_outcome; [exact Hact|assumption..]| |auto].
    intros y (-> & _). auto.
  - intros k s Hk (-> & _). unfold pooled_shape.
    eapply outcome_mono; [apply MaxPool3d_outcome| |auto].
    intros y (-> & Hpos). rewrite !div_pow_succ in * by lia.
    rewrite (chan_in_succ c k) by lia. auto.
  - intros x (-> & HpD & HpH & HpW). rewrite Hrounds in *.
    unfold the_ConvMod, pooled_shape.
    eapply outcome_mono;
      [apply ConvMod_outcome; [exact Hact|assumption..]| |auto].
    intros y (-> & Hv). split; [reflexivity|].
    apply restored_bridge; assumption.
  - intros k u y s Hk Hu (-> & HG) (-> & HpD & HpH & HpW).
    rewrite Hrounds in Hk.
    destruct (restored_pos (cfg_depth c) N D0 H0 W0 (k + 1) ltac:(lia) HG)
      as (HqD & HqH & HqW).
    pose proof (div_pow_succ D0 k ltac:(lia)) as ED.
    pose proof (div_pow_succ H0 k ltac:(lia)) as EH.
    pose proof (div_pow_succ W0 k ltac:(lia)) as EW.
    assert (1 < D0 / 2 ^ k).
    { pose proof (Z.div_mod (D0 / 2 ^ k) 2 ltac:(lia)).
      pose proof (Z.mod_pos_bound (D0 / 2 ^ k) 2 ltac:(lia)). lia. }
    assert (1 < H0 / 2 ^ k).
    { pose proof (Z.div_mod (H0 / 2 ^ k) 2 ltac:(lia)).
      pose proof (Z.mod_pos_bound (H0 / 2 ^ k) 2 ltac:(lia)). lia. }
    assert (1 < W0 / 2 ^ k).
    { pose proof (Z.div_mod (W0 / 2 ^ k) 2 ltac:(lia)).
      pose proof (Z.mod_pos_bound (W0 / 2 ^ k) 2 ltac:(lia)). lia. }
    unfold pooled_shape.
    eapply outcome_mono;
      [eapply UpsampleMod_outcome;
       first [exact Hact | exact Hu | assumption]| |auto].
    intros r (-> & FD & FH & FW & _). split; [reflexivity|].
    apply restored_step; [lia|exact HG|assumption..].
  - intros k u Hk (-> & HG). rewrite Hrounds in Hk.
    destruct (restored_pos (cfg_depth c) N D0 H0 W0 k ltac:(lia) HG) as (HqD & HqH & HqW).
    unfold the_ConvMod, pooled_shape.
    eapply outcome_mono;
      [apply ConvMod_outcome; [exact Hact|assumption..]| |auto].
    intros y (-> & _). auto.
  - intros y (-> & HG).
    destruct (restored_pos (cfg_depth c) N D0 H0 W0 0 ltac:(lia) HG) as (HqD & HqH & HqW).
    unfold pooled_shape. rewrite !div_pow_0 in *.
    eapply outcome_mono;
      [apply embed_out_outcome; assumption| |auto].
    intros z (-> & Hz'). auto.
  - intros z (-> & (HpD & HpH & HpW) & HG).
    eapply eq_outcome;
      [apply ShapeRules.OutputMod_shape; assumption|].
    split; [reflexivity|]. apply restored_accepted; assumption.
Qed.

End ShapeAccepted.

Section ShapeStrided.

#[local] Existing Instance shape_engine.

Variable c : config.
Variable net : RSUNet.
Hypothesis Hbuilt : built c net.
Hypothesis Hact : forall s, cfg_activation c s = Ok s.
Hypothesis Hdepth : 0 <= cfg_depth c.

(** The batch size and the spatial extents at the bridge. *)
Variables n d h w : Z.
Hypothesis Hn : 0 < n.
Hypothesis Hd : 0 < d.
Hypothesis Hh : 0 < h.
Hypothesis Hw : 0 < w.
Hypothesis Hvolume : 1 < n * d * h * w.

Variables x0 z out : list Z.
Hypothesis embed_in_shape :
  call (MEmbeddingMod
          (mk_EmbeddingMod (backend_of (cfg_mode c)) 1 embed_nin embed_ks
             [0; 2; 2] (cfg_activation c) (cfg_init_stride c))) [x0] =
  Ok (level_shape (cfg_depth c) n d h w 0 embed_nin).
Hypothesis embed_out_shape :
  call (the_embed_out c) [level_shape (cfg_depth c) n d h w 0 (chan c 0)] =
  Ok z.
Hypothesis output_shape :
  call (MOutputMod (mk_OutputMod (backend_of (cfg_mode c)) embed_nout
                      (cfg_aff c))) [z] = Ok out.

Lemma RSUNet_forward_levels : RSUNet_forward net x0 = Ok out.
Proof.
  assert (Hrounds : rounds c = cfg_depth c) by (unfold rounds; lia).
  apply outcome_eq.
  apply (forward_rule c net Hbuilt
           (fun k x => x = level_shape (cfg_depth c) n d h w k (chan_in c k))
           (fun k s => s = level_shape (cfg_depth c) n d h w k (chan c k))
           (fun k y => y = level_shape (cfg_depth c) n d h w k (chan c k))
           (fun k u => u = level_shape (cfg_depth c) n d h w k (chan c k))
           (fun x => x = x0)
           (fun y => y = z)
           (fun y => y = out)
           (fun _ => False)); [| | | | | | | |reflexivity].
  - intros x ->. eapply eq_outcome; [exact embed_in_shape|reflexivity].
  - intros k x Hk ->. rewrite Hrounds in Hk.
    eapply eq_outcome; [apply level_ConvMod; first [assumption|lia]|].
    reflexivity.
  - intros k s Hk ->. rewrite Hrounds in Hk.
    rewrite (chan_in_succ c k) by lia.
    eapply eq_outcome; [|reflexivity].
    rewrite (level_half c n d h w k) by exact Hk.
    pose proof (level_scale c (k + 1) ltac:(lia)) as Hq.
    unfold level_shape. cbv zeta.
    apply ShapeRules.MaxPool3d_shape; nia.
  - intros x ->. rewrite Hrounds.
    eapply eq_outcome; [apply level_ConvMod; first [assumption|lia]|].
    reflexivity.
  - intros k u y s Hk Hu -> ->. rewrite Hrounds in Hk.
    eapply eq_outcome; [|reflexivity].
    rewrite !(level_half c n d h w k) by exact Hk.
    pose proof (level_scale c (k + 1) ltac:(lia)) as Hq.
    unfold level_shape. cbv zeta.
    eapply ShapeRules.UpsampleMod_shape;
      first [exact Hact | exact Hn | exact Hu | nia].
  - intros k u Hk ->. rewrite Hrounds in Hk.
    eapply eq_outcome; [apply level_ConvMod; first [assumption|lia]|].
    reflexivity.
  - intros y ->. eapply eq_outcome; [exact embed_out_shape|reflexivity].
  - intros y ->. eapply eq_outcome; [exact output_shape|reflexivity].
Qed.

End ShapeStrided.

Lemma conv_out_eq d k s p r :
  0 < s -> k <= d + 2 * p -> r = (d + 2 * p - k) / s + 1 ->
  Shape.conv_out d k s p = Ok r.
Proof.
  intros Hs Hk ->. unfold Shape.conv_out.
  replace (0 <? s) with true by (symmetry; apply Z.ltb_lt; lia).
  replace (k <=? d + 2 * p) with true by (symmetry; apply Z.leb_le; lia).
  reflexivity.
Qed.

Lemma conv_out_inv d k s p r :
  Shape.conv_out d k s p = Ok r ->
  0 < s /\ k <= d + 2 * p /\ r = (d + 2 * p - k) / s + 1.
Proof.
  unfold Shape.conv_out.
  destruct (Z.ltb_spec 0 s); [|discriminate].
  destruct (Z.leb_spec k (d + 2 * p)); [|discriminate].
  simpl. intros [= <-]. auto.
Qed.

Lemma conv_transpose_out_eq d k s p op r :
  0 < s -> op < s \/ op < 1 -> r = (d - 1) * s - 2 * p + (k - 1) + op + 1 ->
  0 < r -> Shape.conv_transpose_out d k s p op = Ok r.
Proof.
  intros Hs Hop -> Hr. unfold Shape.conv_transpose_out.
  replace (0 <? s) with true by (symmetry; apply Z.ltb_lt; lia).
  replace ((op <? s) || (op <? 1)) with true.
  2: { symmetry. apply orb_true_iff. rewrite !Z.ltb_lt. exact Hop. }
  cbn [andb]. cbv zeta.
  replace (0 <? _) with true by (symmetry; apply Z.ltb_lt; lia).
  reflexivity.
Qed.

Section Embeddings.

#[local] Existing Instance shape_engine.

Variable act : list Z -> result (list Z).
Hypothesis Hact : forall s, act s = Ok s.

Variable stride : pyval.
Variables sd sh sw : Z.
Hypothesis Hstride : Shape.triple stride = Ok (sd, sh, sw).

(** The input embedding: kernel [(1,5,5)], padding [(0,2,2)], any stride. *)
Lemma embed_in_strided b cin cout n D H W :
  0 < sd -> 0 < sh -> 0 < sw -> 1 <= D -> 1 <= H -> 1 <= W ->
  call (E := shape_engine)
    (MEmbeddingMod (mk_EmbeddingMod b cin cout embed_ks [0; 2; 2] act stride))
    [[n; cin; D; H; W]] =
  Ok [n; cout; (D - 1) / sd + 1; (H - 1) / sh + 1; (W - 1) / sw + 1].
Proof.
  intros Hsd Hsh Hsw HD HH HW.
  unfold call, EmbeddingMod_forward, Conv_forward, mk_EmbeddingMod, mk_Conv,
    embed_ks.
  cbn [em_conv em_activation conv_conv conv3d shape_engine].
  unfold Shape.conv3d. cbn [c_in c_out c_kernel c_stride c_padding].
  rewrite Z.eqb_refl, Hstride. cbn [Shape.triple bind].
  rewrite (conv_out_eq D 1 sd 0 ((D - 1) / sd + 1))
    by first [lia | f_equal; f_equal; lia].
  rewrite (conv_out_eq H 5 sh 2 ((H - 1) / sh + 1))
    by first [lia | f_equal; f_equal; lia].
  rewrite (conv_out_eq W 5 sw 2 ((W - 1) / sw + 1))
    by first [lia | f_equal; f_equal; lia].
  cbn [bind]. apply Hact.
Qed.

Lemma embed_in_strided_inv b cin cout n C D H W x1 :
  call (E := shape_engine)
    (MEmbeddingMod (mk_EmbeddingMod b cin cout embed_ks [0; 2; 2] act stride))
    [[n; C; D; H; W]] = Ok x1 ->
  C = cin /\ (0 < sd /\ 0 < sh /\ 0 < sw) /\ 1 <= D /\ 1 <= H /\ 1 <= W.
Proof.
  unfold call, EmbeddingMod_forward, Conv_forward, mk_EmbeddingMod, mk_Conv,
    embed_ks.
  cbn [em_conv em_activation conv_conv conv3d shape_engine].
  unfold Shape.conv3d. cbn [c_in c_out c_kernel c_stride c_padding].
  destruct (Z.eqb_spec C cin) as [->|]; [|discriminate].
  rewrite Hstride. cbn [Shape.triple bind].
  destruct (Shape.conv_out D 1 sd 0) as [d'|] eqn:ED; [|discriminate].
  destruct (Shape.conv_out H 5 sh 2) as [h'|] eqn:EH; [|discriminate].
  destruct (Shape.conv_out W 5 sw 2) as [w'|] eqn:EW; [|discriminate].
  intros _.
  apply conv_out_inv in ED, EH, EW. lia.
Qed.

(** The output embedding of a strided network: a transposed convolution
    with kernel [(1,5,5)], padding [(0,2,2)] and output padding
    [(0,1,1)]. *)
Lemma embed_out_strided cin cout n d h w :
  0 < sd -> 1 < sh -> 1 < sw -> 0 < d -> 0 < h -> 0 < w ->
  call (E := shape_engine)
    (MEmbeddingModUP (mk_EmbeddingModUP cin cout embed_ks [0; 2; 2] act
                        stride)) [[n; cin; d; h; w]] =
  Ok [n; cout; (d - 1) * sd + 1; (h - 1) * sh + 2; (w - 1) * sw + 2].
Proof.
  intros Hsd Hsh Hsw Hd Hh Hw.
  unfold call, EmbeddingModUP_forward, ConvT_forward, mk_EmbeddingModUP,
    mk_ConvT, embed_ks.
  cbn [eu_conv eu_activation convt_conv conv_transpose3d shape_engine].
  unfold Shape.conv_transpose3d.
  cbn [ct_in ct_out ct_kernel ct_stride ct_padding ct_out_pad].
  rewrite Z.eqb_refl, Hstride. cbn [Shape.triple bind].
  rewrite (conv_transpose_out_eq d 1 sd 0 0 ((d - 1) * sd + 1))
    by first [nia | lia].
  rewrite (conv_transpose_out_eq h 5 sh 2 1 ((h - 1) * sh + 2))
    by first [nia | lia].
  rewrite (conv_transpose_out_eq w 5 sw 2 1 ((w - 1) * sw + 2))
    by first [nia | lia].
  cbn [bind]. apply Hact.
Qed.

End Embeddings.

Lemma accepted_bridge depth n D H W :
  0 <= depth -> accepted depth n D H W ->
  exists d h w,
    D = 2 ^ depth * d /\ H = 2 ^ depth * h /\ W = 2 ^ depth * w /\
    0 < n /\ 0 < d /\ 0 < h /\ 0 < w /\ 1 < n * d * h * w.
Proof.
  intros Hdepth (HD & HH & HW & [d ->] & [h ->] & [w ->] & Hv).
  assert (Hpow : 0 < 2 ^ depth) by (apply Z.pow_pos_nonneg; lia).
  rewrite !Z.div_mul in Hv by lia.
  assert (0 < d) by nia. assert (0 < h) by nia. assert (0 < w) by nia.
  assert (0 < d * h * w) by (repeat apply Z.mul_pos_pos; assumption).
  assert (0 < n) by nia.
  exists d, h, w. repeat split; lia.
Qed.

Lemma level_shape_0 depth n d h w ch :
  level_shape depth n d h w 0 ch =
  [n; ch; 2 ^ depth * d; 2 ^ depth * h; 2 ^ depth * w].
Proof. unfold level_shape. rewrite Z.sub_0_r. reflexivity. Qed.

Lemma div_nonneg_inv a s : 0 < s -> 0 <= a / s -> 0 <= a.
Proof.
  intros Hs Hq. pose proof (Z.div_mod a s ltac:(lia)).
  pose proof (Z.mod_pos_bound a s Hs). nia.
Qed.

Lemma embed_out_channel {E : Engine} (c : config) :
  0 <= cfg_depth c ->
  (if 0 <? cfg_depth c then chan c 0 else chan c (cfg_depth c)) = chan c 0.
Proof.
  intros Hdepth. destruct (0 <? cfg_depth c) eqn:H0; [reflexivity|].
  apply Z.ltb_ge in H0. f_equal. lia.
Qed.





(** ** The names a network registers *)


